(** * Face_Balance: the FaceCanvas component

    A shallow embedding of [src/components/FaceCanvas.tsx] (the live, last
    version in the file; the earlier versions are commented out) and the
    properties of its geometry helpers, overlay constructs, marker list and
    asynchronous routines.

    Numbers.  A JavaScript [number] is modelled by an exact rational [Q]:
    arithmetic is exact, [===] on numbers is [Qeq], and [Math.round x] is
    [floor (x + 1/2)].  Rounding error, overflow and [NaN] inputs are outside
    the model.  The [Infinity] sentinels of the bounding-box loops are kept,
    in the small type [jsnum].  [Math.hypot] has irrational exact values, so
    it is a parameter [hypot] of the development; the only property ever
    assumed of it is that it is not negative.

    Identifiers.  [nanoid()] is a parameter [gen]: its [k]-th call returns
    [gen k]; the number of calls made so far is the ghost field [nonce] of the
    component state.

    Effects.  A handler is a function on the component [state].  The setters
    of React state, the console and the awaited calls append to the [trace]
    field, so that what a routine did can be read back.  What the outside
    world does (an awaited call resolves or throws, the effect is cleaned up
    while a call is pending) is an environment record given to the routine. *)

From Stdlib Require Import QArith Qround Qabs Lqa ZArith Lia.
From Stdlib Require Import Ascii HexadecimalString HexadecimalN.
From stdpp Require Import base option list strings pretty.

Local Open Scope Q_scope.

(* ================================================================= *)
(** ** Numbers *)

(** [Math.round]: the nearest integer, halves rounded up. *)
Definition Math_round (x : Q) : Q := inject_Z (Qfloor (x + (1 # 2))).

(** [a || d] on numbers: [0] is falsy. *)
Definition or_else (a d : Q) : Q := if Qeq_bool a 0 then d else a.

(** A computable instance of [Math.hypot], to run the definitions on
    examples: the square root of [x*x + y*y], rounded down to a multiple of
    the denominator.  It is exact on Pythagorean triples. *)
Definition hypot_floor (x y : Q) : Q :=
  let s := x * x + y * y in
  Z.sqrt (Qnum s * Zpos (Qden s)) # Qden s.

(** A computable instance of [nanoid]: the decimal numeral of the call's
    rank. *)
Definition nanoid_decimal (k : nat) : string := pretty k.

(** The numbers that the bounding-box loops can hold: they start from
    [Infinity] and [-Infinity], and the midpoint of the two is [NaN]. *)
Inductive jsnum : Type :=
  | Num (q : Q)
  | PInf
  | NInf
  | NaN.

Definition js_lt (a b : jsnum) : bool :=
  match a, b with
  | Num p, Num q => if Qlt_le_dec p q then true else false
  | Num _, PInf => true
  | NInf, Num _ => true
  | NInf, PInf => true
  | _, _ => false
  end.

Definition js_le (a b : jsnum) : bool :=
  match a, b with
  | Num p, Num q => Qle_bool p q
  | Num _, PInf => true
  | NInf, Num _ => true
  | NInf, PInf => true
  | PInf, PInf => true
  | NInf, NInf => true
  | _, _ => false
  end.

Definition js_neg (a : jsnum) : jsnum :=
  match a with
  | Num p => Num (- p)
  | PInf => NInf
  | NInf => PInf
  | NaN => NaN
  end.

Definition js_add (a b : jsnum) : jsnum :=
  match a, b with
  | Num p, Num q => Num (p + q)
  | NaN, _ | _, NaN => NaN
  | PInf, NInf | NInf, PInf => NaN
  | PInf, _ | _, PInf => PInf
  | NInf, _ | _, NInf => NInf
  end.

Definition js_sub (a b : jsnum) : jsnum := js_add a (js_neg b).

(** Multiplication and division by a positive literal ([2], [3]). *)
Definition js_scale (k : Q) (a : jsnum) : jsnum :=
  match a with
  | Num p => Num (k * p)
  | other => other
  end.

Definition js_div (a : jsnum) (k : Q) : jsnum :=
  match a with
  | Num p => Num (p / k)
  | other => other
  end.

Definition isFinite (a : jsnum) : bool :=
  match a with
  | Num _ => true
  | _ => false
  end.

(** The rational held by a finite number ([0] for the others). *)
Definition finite_part (a : jsnum) : Q :=
  match a with
  | Num p => p
  | _ => 0
  end.

(* ================================================================= *)
(** ** Data *)

(** [type Landmark = [number, number, number?]]. *)
Record Landmark : Type := mkLandmark {
  lm0 : Q;
  lm1 : Q;
  lm2 : option Q
}.

(** A landmark array.  An entry [None] is a hole: [null] or [undefined],
    which the source skips with [if (!lm)]. *)
Abbreviation mesh := (list (option Landmark)).

(** [landmarks[i]]: [None] when the index is out of range or the entry is
    a hole, that is, when the JavaScript value is falsy. *)
Definition entry (landmarks : mesh) (i : nat) : option Landmark :=
  mjoin (landmarks !! i).

Record AnnotationPoint : Type := mkPoint {
  pt_id : string;
  pt_x : Q;
  pt_y : Q;
  pt_product : option string;
  pt_dose : option string
}.

(** [{ x: number; y: number }]. *)
Record xy : Type := mkXY { px : Q; py : Q }.

Record size : Type := mkSize { width : Q; height : Q }.

Definition DEFAULT_STAGE_WIDTH : Q := 800.
Definition DEFAULT_STAGE_HEIGHT : Q := 800.

(* ================================================================= *)
(** ** Geometry helpers *)

Definition fitImage (imageWidth imageHeight stageW stageH : Q) : size :=
  let imgRatio := imageWidth / imageHeight in
  let stageRatio := stageW / stageH in
  if Qlt_le_dec stageRatio imgRatio
  then {| width := stageW; height := Math_round (stageW / imgRatio) |}
  else {| width := Math_round (stageH * imgRatio); height := stageH |}.

(** [indicesToXY]: the loop pushes onto [pts] and returns [null] at the
    first falsy entry.  (Every entry of a [mesh] has numeric coordinates, so
    the [typeof lm[0] !== "number"] half of the guard never fires.) *)
Fixpoint indicesToXY_from (pts : list xy) (indices : list nat)
    (landmarks : mesh) : option (list xy) :=
  match indices with
  | [] => Some pts
  | i :: rest =>
      match entry landmarks i with
      | None => None
      | Some lm =>
          indicesToXY_from (pts ++ [{| px := lm0 lm; py := lm1 lm |}])
            rest landmarks
      end
  end.

Definition indicesToXY (indices : list nat) (landmarks : mesh)
    : option (list xy) :=
  match landmarks with
  | [] => None
  | _ => indicesToXY_from [] indices landmarks
  end.

Definition flattenPts (pts : list xy) : list Q :=
  flat_map (fun p => [px p; py p]) pts.

(* ================================================================= *)
(** ** Reference constructs: bounding box, midline, eye-line, thirds *)

Record bbox : Type := mkBbox {
  minX : jsnum; maxX : jsnum; minY : jsnum; maxY : jsnum
}.

Definition bbox_start : bbox :=
  {| minX := PInf; maxX := NInf; minY := PInf; maxY := NInf |}.

(** One turn of [for (const lm of landmarks)]. *)
Definition bbox_step (b : bbox) (e : option Landmark) : bbox :=
  match e with
  | None => b
  | Some lm =>
      let x := Num (lm0 lm) in
      let y := Num (lm1 lm) in
      {| minX := if js_lt x (minX b) then x else minX b;
         maxX := if js_lt (maxX b) x then x else maxX b;
         minY := if js_lt y (minY b) then y else minY b;
         maxY := if js_lt (maxY b) y then y else maxY b |}
  end.

(** The loop that [midlineEndpoints] and [thirdsYs] both contain. *)
Definition boundingBox (landmarks : mesh) : bbox :=
  fold_left bbox_step landmarks bbox_start.

Record jsxy : Type := mkJsxy { jx : jsnum; jy : jsnum }.

Record midline : Type := mkMidline { mid_a : jsxy; mid_b : jsxy }.

Definition midlineEndpoints (landmarks : mesh) : option midline :=
  match bool_decide (152 < length landmarks)%nat,
        entry landmarks 10, entry landmarks 152 with
  | true, Some l10, Some l152 =>
      Some {| mid_a := {| jx := Num (lm0 l10); jy := Num (lm1 l10) |};
              mid_b := {| jx := Num (lm0 l152); jy := Num (lm1 l152) |} |}
  | _, _, _ =>
      match landmarks with
      | [] => None
      | _ =>
          let b := boundingBox landmarks in
          let cx := js_div (js_add (minX b) (maxX b)) 2 in
          Some {| mid_a := {| jx := cx; jy := minY b |};
                  mid_b := {| jx := cx; jy := maxY b |} |}
      end
  end.

Record eyeline : Type := mkEyeline { eye_l : xy; eye_r : xy }.

Definition eyeLine (landmarks : mesh) : option eyeline :=
  match bool_decide (263 < length landmarks)%nat,
        entry landmarks 33, entry landmarks 263 with
  | true, Some l33, Some l263 =>
      Some {| eye_l := {| px := lm0 l33; py := lm1 l33 |};
              eye_r := {| px := lm0 l263; py := lm1 l263 |} |}
  | _, _, _ => None
  end.

Record thirds : Type := mkThirds {
  y1 : jsnum; y2 : jsnum; xmin : jsnum; xmax : jsnum
}.

Definition thirdsYs (landmarks : mesh) : option thirds :=
  match landmarks with
  | [] => None
  | _ =>
      let b := boundingBox landmarks in
      let h := js_sub (maxY b) (minY b) in
      if negb (isFinite h) || js_le h (Num 0) then None
      else Some {| y1 := js_add (minY b) (js_div h 3);
                   y2 := js_add (minY b) (js_div (js_scale 2 h) 3);
                   xmin := minX b;
                   xmax := maxX b |}
  end.

(* ================================================================= *)
(** ** Muscle and vessel tables *)

Record muscleDef : Type := mkMuscleDef {
  m_id : string;
  m_label : string;
  m_boundary : list nat;
  m_centerline : option (list nat);
  m_color : string
}.

Definition muscleDefs : list muscleDef :=
  [ {| m_id := "orbicularis_oris"; m_label := "Orbicularis Oris";
       m_boundary := [61; 146; 91; 181; 84; 17; 314; 405; 321; 375; 291; 61]%nat;
       m_centerline := Some [13; 78; 14]%nat;
       m_color := "#b4006a" |};
    {| m_id := "zygomaticus_major_l"; m_label := "Zygomaticus Major (L)";
       m_boundary := [61; 226; 354; 334; 293]%nat;
       m_centerline := Some [61; 226; 345]%nat;
       m_color := "#9b2a8a" |};
    {| m_id := "zygomaticus_major_r"; m_label := "Zygomaticus Major (R)";
       m_boundary := [291; 446; 323; 361; 291]%nat;
       m_centerline := Some [291; 446; 323]%nat;
       m_color := "#9b2a8a" |};
    {| m_id := "mentalis"; m_label := "Mentalis";
       m_boundary := [152; 148; 176; 149; 150; 152]%nat;
       m_centerline := Some [152; 148; 176]%nat;
       m_color := "#7f2266" |} ].

(** An element of [musclesToRender]: the definition with its points. *)
Record muscleShape : Type := mkMuscleShape {
  ms_def : muscleDef;
  ms_boundaryPts : list xy;
  ms_centerPts : option (list xy)
}.

Definition muscleShapeOf (landmarks : mesh) (m : muscleDef)
    : option muscleShape :=
  match indicesToXY (m_boundary m) landmarks with
  | None => None
  | Some boundaryPts =>
      Some {| ms_def := m;
              ms_boundaryPts := boundaryPts;
              ms_centerPts :=
                match m_centerline m with
                | Some c => indicesToXY c landmarks
                | None => None
                end |}
  end.

(** [muscleDefs.map(...).filter(Boolean)]. *)
Definition musclesToRender (landmarks : mesh) : list muscleShape :=
  omap (muscleShapeOf landmarks) muscleDefs.

Record vesselDef : Type := mkVesselDef {
  v_id : string;
  v_label : string;
  v_indices : list nat
}.

Definition vesselDefs : list vesselDef :=
  [ {| v_id := "facial_artery_l"; v_label := "Facial artery (L)";
       v_indices := [234; 93; 132; 58; 0; 1; 2]%nat |};
    {| v_id := "facial_artery_r"; v_label := "Facial artery (R)";
       v_indices := [454; 323; 361; 288; 267; 266; 265]%nat |};
    {| v_id := "angular_l"; v_label := "Angular (L)";
       v_indices := [2; 98; 4; 5]%nat |};
    {| v_id := "angular_r"; v_label := "Angular (R)";
       v_indices := [265; 362; 257; 256]%nat |};
    {| v_id := "sup_labial"; v_label := "Superior labial";
       v_indices := [61; 62; 63; 64; 65; 66]%nat |};
    {| v_id := "inf_labial"; v_label := "Inferior labial";
       v_indices := [291; 292; 293; 294; 295; 296]%nat |} ].

Record vesselShape : Type := mkVesselShape {
  vs_def : vesselDef;
  vs_pts : list xy
}.

Definition vesselShapeOf (landmarks : mesh) (v : vesselDef)
    : option vesselShape :=
  match indicesToXY (v_indices v) landmarks with
  | None => None
  | Some pts => Some {| vs_def := v; vs_pts := pts |}
  end.

Definition vesselShapes (landmarks : mesh) : list vesselShape :=
  omap (vesselShapeOf landmarks) vesselDefs.

(* ================================================================= *)
(** ** Drawing primitives of the overlay layer *)

(** A Konva [<Line points=...>] or [<Text text=... x=... y=...>]; stroke,
    fill and dash are styling and are left out. *)
Inductive prim : Type :=
  | Line (points : list jsnum)
  | Text (text : string) (tx ty : jsnum).

Definition drawMidline (showMidline : bool) (landmarks : mesh) : list prim :=
  match showMidline, midlineEndpoints landmarks with
  | true, Some m =>
      let a := mid_a m in
      let b := mid_b m in
      [ Line [jx a; jy a; jx b; jy b];
        Text "Midline"
          (js_add (js_div (js_add (jx a) (jx b)) 2) (Num 6))
          (js_add (js_div (js_add (jy a) (jy b)) 2) (Num 6)) ]
  | _, _ => []
  end.

Definition drawEyeLine (showEyeLine : bool) (landmarks : mesh) : list prim :=
  match showEyeLine, eyeLine landmarks with
  | true, Some e =>
      let l := eye_l e in
      let r := eye_r e in
      [ Line [Num (px l); Num (py l); Num (px r); Num (py r)];
        Text "Eye-line"
          (Num ((px l + px r) / 2 + 6)) (Num ((py l + py r) / 2 - 16)) ]
  | _, _ => []
  end.

Definition drawThirds (showThirds : bool) (landmarks : mesh) : list prim :=
  match showThirds, thirdsYs landmarks with
  | true, Some t =>
      [ Line [xmin t; y1 t; xmax t; y1 t];
        Text "1/3" (js_add (xmax t) (Num 6)) (js_sub (y1 t) (Num 6));
        Line [xmin t; y2 t; xmax t; y2 t];
        Text "2/3" (js_add (xmax t) (Num 6)) (js_sub (y2 t) (Num 6)) ]
  | _, _ => []
  end.

(** A vessel: the dashed path and its label at [v.pts[0]].  [None] is the
    [TypeError] of reading [.x] of [undefined], were [pts] empty. *)
Definition drawVessel (v : vesselShape) : option (list prim) :=
  p0 ← vs_pts v !! 0%nat;
  Some [ Line (Num <$> flattenPts (vs_pts v));
         Text (v_label (vs_def v)) (Num (px p0 + 6)) (Num (py p0 - 12)) ].

Record sample : Type := mkSample {
  s_x : Q; s_y : Q; s_nx : Q; s_ny : Q
}.

(** One fibre stroke: [len = 8 + (i % 3)], centred on the sample, along its
    normal. *)
Definition fibreStroke (i : nat) (fs : sample) : prim :=
  let len := 8 + inject_Z (Z.of_nat (i mod 3)) in
  Line [ Num (s_x fs - s_nx fs * (len / 2));
         Num (s_y fs - s_ny fs * (len / 2));
         Num (s_x fs + s_nx fs * (len / 2));
         Num (s_y fs + s_ny fs * (len / 2)) ].

(* ================================================================= *)
(** ** Component state, events and environments *)

(** How a call into the outside world ends. *)
Inductive outcome (A : Type) : Type :=
  | Returns (a : A)
  | Throws.
Arguments Returns {A} a.
Arguments Throws {A}.

(** A detector object.  [det_dispose] is [None] when the object has no
    [dispose] method, else what calling it does. *)
Record Detector : Type := mkDetector {
  det_handle : nat;
  det_dispose : option (outcome unit)
}.

(** The three call shapes of [estimateFaces] that [detectOnce] tries:
    [(off)], [({ input: off })] and [(off, { flipHorizontal: false })]. *)
Inductive shape : Type := Plain | InputObject | WithConfig.

Inductive call : Type :=
  | TfSetBackend
  | TfReady
  | CreateDetector
  | LegacyLoad
  | EstimateFaces (s : shape).

Inductive level : Type := Warn | Error.

Inductive event : Type :=
  | EAwait (c : call)              (* a suspension point: [await c] *)
  | EDispose                       (* [created.dispose()] *)
  | EReadCancelled (v : bool)      (* [if (cancelled)] read the flag as [v] *)
  | ESetDetector (d : Detector)
  | ESetLandmarks
  | ESetPoints
  | EConsole (l : level) (msg : string).

Record state : Type := mkState {
  landmarks : mesh;
  points : list AnnotationPoint;
  detector : option Detector;
  imageFit : option size;
  stageSize : size;
  trace : list event;
  nonce : nat
}.

Definition initial : state :=
  {| landmarks := []; points := []; detector := None; imageFit := None;
     stageSize := {| width := DEFAULT_STAGE_WIDTH;
                     height := DEFAULT_STAGE_HEIGHT |};
     trace := []; nonce := 0 |}.

Definition emit (e : event) (st : state) : state :=
  {| landmarks := landmarks st; points := points st;
     detector := detector st; imageFit := imageFit st;
     stageSize := stageSize st; trace := trace st ++ [e];
     nonce := nonce st |}.

Definition emits (es : list event) (st : state) : state :=
  fold_left (fun st e => emit e st) es st.

Definition console (l : level) (msg : string) (st : state) : state :=
  emit (EConsole l msg) st.

Definition setLandmarks (m : mesh) (st : state) : state :=
  emit ESetLandmarks
    {| landmarks := m; points := points st;
       detector := detector st; imageFit := imageFit st;
       stageSize := stageSize st; trace := trace st; nonce := nonce st |}.

Definition setPoints (ps : list AnnotationPoint) (st : state) : state :=
  emit ESetPoints
    {| landmarks := landmarks st; points := ps;
       detector := detector st; imageFit := imageFit st;
       stageSize := stageSize st; trace := trace st; nonce := nonce st |}.

Definition setDetector (d : Detector) (st : state) : state :=
  emit (ESetDetector d)
    {| landmarks := landmarks st; points := points st;
       detector := Some d; imageFit := imageFit st;
       stageSize := stageSize st; trace := trace st; nonce := nonce st |}.

Definition setImageFit (f : option size) (st : state) : state :=
  {| landmarks := landmarks st; points := points st;
     detector := detector st; imageFit := f;
     stageSize := stageSize st; trace := trace st; nonce := nonce st |}.

Definition setStageSize (s : size) (st : state) : state :=
  {| landmarks := landmarks st; points := points st;
     detector := detector st; imageFit := imageFit st;
     stageSize := s; trace := trace st; nonce := nonce st |}.

Definition bump (st : state) : state :=
  {| landmarks := landmarks st; points := points st;
     detector := detector st; imageFit := imageFit st;
     stageSize := stageSize st; trace := trace st;
     nonce := S (nonce st) |}.

(** What the outside world does during [setup]. *)
Record setup_env : Type := mkSetupEnv {
  tf_setBackend : outcome unit;
  tf_ready : outcome unit;
  createDetector : outcome Detector;
  legacy_load : outcome Detector;
  (** the value of [mounted] when the [await] of this call resumes *)
  mounted_after : call -> bool
}.

(** A prediction as [detectOnce] reads it, through [face?.]: four optional
    properties.  A [null] prediction reads as four absent properties. *)
Record keypoint : Type := mkKeypoint {
  kp_x : Q; kp_y : Q; kp_z : option Q
}.

Record face : Type := mkFace {
  scaledMesh : option mesh;
  faceMesh : option mesh;
  keypoints : option (list (option keypoint));
  keypoints3D : option mesh
}.

(** What the outside world does during [detectOnce]. *)
Record detect_env : Type := mkDetectEnv {
  (** the off-screen canvas is made and drawn without an exception *)
  canvas_ok : bool;
  (** [estimateFaces] in each call shape: it throws, or resolves to a
      falsy value ([None]) or to an array of predictions *)
  estimateFaces : shape -> outcome (option (list face));
  (** the effect's cleanup ran ([cancelled = true]) while this call was
      pending *)
  cancel_during : shape -> bool
}.

(** A partial update [Partial<Pick<AnnotationPoint, ...>>]: [None] is an
    absent key. *)
Record update : Type := mkUpdate {
  u_x : option Q;
  u_y : option Q;
  u_product : option string;
  u_dose : option string
}.

Inductive preset : Type := lips | nasolabial | marionette.

Definition presetIndices (name : preset) : list nat :=
  match name with
  | lips => [13; 14; 78; 308]%nat
  | nasolabial => [50; 280; 146; 376]%nat
  | marionette => [57; 287; 164; 393]%nat
  end.

Definition lipsIndices : list nat := [13; 14; 78; 308]%nat.

(** [{ ...pt, ...data }]. *)
Definition spread (pt : AnnotationPoint) (data : update) : AnnotationPoint :=
  {| pt_id := pt_id pt;
     pt_x := default (pt_x pt) (u_x data);
     pt_y := default (pt_y pt) (u_y data);
     pt_product :=
       match u_product data with
       | Some s => Some s
       | None => pt_product pt
       end;
     pt_dose :=
       match u_dose data with
       | Some s => Some s
       | None => pt_dose pt
       end |}.

Definition has_id (i : string) (pt : AnnotationPoint) : bool :=
  bool_decide (pt_id pt = i).

(** [keypoints.map(kp => [kp.x, kp.y, kp.z ?? 0])]; reading [.x] of a
    [null] keypoint throws. *)
Definition landmarkOfKeypoint (k : option keypoint) : option (option Landmark) :=
  match k with
  | None => None
  | Some kp =>
      Some (Some {| lm0 := kp_x kp; lm1 := kp_y kp;
                    lm2 := Some (default 0 (kp_z kp)) |})
  end.

(** The [if / else if] chain over the shapes of a prediction.  The second
    component says whether "Unknown prediction shape" was warned. *)
Definition extractMesh (f : face) : outcome (mesh * bool) :=
  match scaledMesh f, faceMesh f, keypoints f, keypoints3D f with
  | Some m, _, _, _ => Returns (m, false)
  | None, Some m, _, _ => Returns (m, false)
  | None, None, Some kps, _ =>
      match mapM landmarkOfKeypoint kps with
      | Some m => Returns (m, false)
      | None => Throws
      end
  | None, None, None, Some m => Returns (m, false)
  | None, None, None, None => Returns ([], true)
  end.

(* ================================================================= *)
(** ** Sample inputs *)

(** A mesh of two landmarks: neither [10] nor [152] is there. *)
Definition two_landmarks : mesh :=
  [ Some {| lm0 := 0; lm1 := 0; lm2 := None |};
    Some {| lm0 := 10; lm1 := 20; lm2 := None |} ].

(** A detector without a [dispose] method. *)
Definition plain_detector : Detector :=
  {| det_handle := 1; det_dispose := None |}.



(** The first call shape throws, and the effect is cleaned up while it is
    pending; the second call shape finds no face. *)
Definition env_retry_cancelled : detect_env :=
  {| canvas_ok := true;
     estimateFaces := fun s =>
       match s with
       | Plain => Throws
       | _ => Returns (Some [])
       end;
     cancel_during := fun s =>
       match s with
       | Plain => true
       | _ => false
       end |}.

(** A mesh of fifteen landmarks on a diagonal: [13] and [14] are there,
    [78] and [308] are not. *)
Definition fifteen_landmarks : mesh :=
  (fun k => Some {| lm0 := inject_Z (Z.of_nat k);
                    lm1 := inject_Z (Z.of_nat k); lm2 := None |})
  <$> seq 0 15.

(** The first call shape finds one face, with [fifteen_landmarks] as its
    [scaledMesh]; the effect is not cleaned up. *)
Definition env_one_face : detect_env :=
  {| canvas_ok := true;
     estimateFaces := fun _ =>
       Returns (Some [ {| scaledMesh := Some fifteen_landmarks;
                          faceMesh := None; keypoints := None;
                          keypoints3D := None |} ]);
     cancel_during := fun _ => false |}.

(** Every call shape throws. *)
Definition env_all_throw : detect_env :=
  {| canvas_ok := true;
     estimateFaces := fun _ => Throws;
     cancel_during := fun _ => false |}.

(** The marker that "Add point" makes first, on the default stage. *)
Definition first_marker : AnnotationPoint :=
  {| pt_id := nanoid_decimal 0; pt_x := 800 / 2; pt_y := 800 / 2;
     pt_product := Some EmptyString; pt_dose := Some EmptyString |}.

(** The state once a detector is loaded and the user has added one marker
    by hand; one identifier has been drawn. *)
Definition one_marker_state : state :=
  {| landmarks := []; points := [first_marker];
     detector := Some plain_detector; imageFit := None;
     stageSize := {| width := DEFAULT_STAGE_WIDTH;
                     height := DEFAULT_STAGE_HEIGHT |};
     trace := []; nonce := 1 |}.

(** A detected mesh and one marker, half a pixel to the right of
    landmark [13]. *)
Definition near_landmark_state : state :=
  {| landmarks := fifteen_landmarks;
     points := [ {| pt_id := nanoid_decimal 0; pt_x := 27 # 2; pt_y := 13;
                    pt_product := Some "Filler"; pt_dose := None |} ];
     detector := Some plain_detector; imageFit := None;
     stageSize := {| width := DEFAULT_STAGE_WIDTH;
                     height := DEFAULT_STAGE_HEIGHT |};
     trace := []; nonce := 1 |}.

(* ================================================================= *)
(** ** The component, over [Math.hypot] and [nanoid] *)

Section Component.

Variable hypot : Q -> Q -> Q.
Variable gen : nat -> string.

Set Default Proof Using "Type".

(* ----------------------------------------------------------------- *)
(** *** samplesAlong *)

(** The first loop: [segLens[i] = hypot(pts[i+1] - pts[i])] for
    [i < pts.length - 1].  An array read is a lookup; [None] records a read
    out of range (in JavaScript: [undefined], then a [TypeError]). *)
Definition segLensOf (pts : list xy) : option (list Q) :=
  mapM (fun i =>
          a ← pts !! i;
          b ← pts !! S i;
          Some (hypot (px b - px a) (py b - py a)))
       (seq 0 (length pts - 1)).

(** [total += l], in the order of the loop. *)
Definition totalOf (segLens : list Q) : Q := fold_left Qplus segLens 0.

(** The [while] loop that finds the segment holding arc length [t].  It
    reads [segLens[segIdx]] only under [segIdx < segLens.length]; the
    recursion is on the part of [segLens] not yet passed. *)
Fixpoint findSegment (t : Q) (rest : list Q) (accum : Q) (segIdx : nat)
    : Q * nat :=
  match rest with
  | [] => (accum, segIdx)
  | l :: rest' =>
      if Qlt_le_dec (accum + l) t
      then findSegment t rest' (accum + l) (S segIdx)
      else (accum, segIdx)
  end.

(** The body of [for (let s = 0; s < n; s++)]. *)
Definition sampleAt (pts : list xy) (segLens : list Q) (total : Q)
    (n s : nat) : option sample :=
  let t := (inject_Z (Z.of_nat s) + (1 # 2)) / inject_Z (Z.of_nat n) * total in
  let found := findSegment t segLens 0 0%nat in
  let accum := fst found in
  let segIdx :=
    if bool_decide (length segLens ≤ snd found)%nat
    then (length segLens - 1)%nat
    else snd found in
  l ← segLens !! segIdx;
  a ← pts !! segIdx;
  b ← pts !! S segIdx;
  let localT := (t - accum) / or_else l 1 in
  let x := px a + (px b - px a) * localT in
  let y := py a + (py b - py a) * localT in
  let vx := px b - px a in
  let vy := py b - py a in
  let len := or_else (hypot vx vy) 1 in
  Some {| s_x := x; s_y := y; s_nx := - vy / len; s_ny := vx / len |}.

Definition samplesAlong (pts : list xy) (n : nat) : option (list sample) :=
  if bool_decide (length pts < 2)%nat then Some []
  else
    segLens ← segLensOf pts;
    let total := totalOf segLens in
    if Qeq_bool total 0 then Some []
    else mapM (sampleAt pts segLens total n) (seq 0 n).

(** A muscle: the two closed shapes and the fibre strokes, sampled along
    the centerline or, without one, along the boundary. *)
Definition drawMuscle (m : muscleShape) : option (list prim) :=
  let flat := Num <$> flattenPts (ms_boundaryPts m) in
  let fiberBasePts := default (ms_boundaryPts m) (ms_centerPts m) in
  fibreSamples ← samplesAlong fiberBasePts 12;
  Some ([Line flat; Line flat] ++ imap fibreStroke fibreSamples).

(** [showMuscles && musclesToRender.map(...)]. *)
Definition drawMuscles (showMuscles : bool) (landmarks : mesh)
    : option (list prim) :=
  if showMuscles
  then mjoin <$> mapM drawMuscle (musclesToRender landmarks)
  else Some [].

Definition drawVessels (showVessels : bool) (landmarks : mesh)
    : option (list prim) :=
  if showVessels
  then mjoin <$> mapM drawVessel (vesselShapes landmarks)
  else Some [].

(* ----------------------------------------------------------------- *)
(** *** Marker handlers *)

(** [nanoid()]: the next identifier, and one more call counted. *)
Definition nanoid (st : state) : string * state :=
  (gen (nonce st), bump st).

Definition freshPoint (x y : Q) (st : state) : AnnotationPoint * state :=
  let r := nanoid st in
  ({| pt_id := fst r; pt_x := x; pt_y := y;
      pt_product := Some EmptyString; pt_dose := Some EmptyString |},
   snd r).

Definition onAddPoint (st : state) : state :=
  let w := match imageFit st with
           | Some f => width f
           | None => width (stageSize st)
           end in
  let h := match imageFit st with
           | Some f => height f
           | None => height (stageSize st)
           end in
  let r := freshPoint (w / 2) (h / 2) st in
  setPoints (points (snd r) ++ [fst r]) (snd r).

(** [[-1, 0, 1, 2].map(i => ...)] of [addPreset], without landmarks. *)
Fixpoint fallbackPoints (offsets : list Z) (cx cy : Q) (st : state)
    : list AnnotationPoint * state :=
  match offsets with
  | [] => ([], st)
  | i :: rest =>
      let r := freshPoint (cx + (inject_Z i - (3 # 2)) * 12)
                          (cy + (inject_Z i - (3 # 2)) * 10) st in
      let r' := fallbackPoints rest cx cy (snd r) in
      (fst r :: fst r', snd r')
  end.

(** The loop [for (const idx of tpl.indices)] of [addPreset].  [mid] and
    [th] are [midlineEndpoints] and [thirdsYs] of the render. *)
Fixpoint presetPoints (mid : option midline) (th : option thirds)
    (indices : list nat) (newPts : list AnnotationPoint) (st : state)
    : list AnnotationPoint * state :=
  match indices with
  | [] => (newPts, st)
  | idx :: rest =>
      let r :=
        match entry (landmarks st) idx with
        | Some lm => freshPoint (lm0 lm) (lm1 lm) st
        | None =>
            match mid, th with
            | Some m, Some t =>
                let cx := js_div (js_add (jx (mid_a m)) (jx (mid_b m))) 2 in
                let dx := if Nat.even (length newPts) then - (12) else 12 in
                let y := if bool_decide (length newPts < 2)%nat
                         then y1 t else y2 t in
                freshPoint (finite_part cx + dx) (finite_part y) st
            | _, _ =>
                freshPoint
                  (width (stageSize st) / 2
                   + (inject_Z (Z.of_nat (length newPts)) - 1) * 10)
                  (height (stageSize st) / 2) st
            end
        end in
      presetPoints mid th rest (newPts ++ [fst r]) (snd r)
  end.

Definition addPreset (name : preset) (st : state) : state :=
  match landmarks st with
  | [] =>
      let cx := width (stageSize st) / 2 in
      let cy := height (stageSize st) / 2 in
      let r := fallbackPoints [(-1)%Z; 0%Z; 1%Z; 2%Z] cx cy st in
      setPoints (points (snd r) ++ fst r) (snd r)
  | _ =>
      let r := presetPoints (midlineEndpoints (landmarks st))
                 (thirdsYs (landmarks st)) (presetIndices name) [] st in
      setPoints (points (snd r) ++ fst r) (snd r)
  end.

Definition updatePointMeta (i : string) (data : update) (st : state) : state :=
  setPoints
    (map (fun pt => if has_id i pt then spread pt data else pt) (points st))
    st.

(** The callers of [updatePointMeta]: the end of a drag, the two form
    inputs and the "refresh" button. *)
Definition onDragEnd (i : string) (nx ny : Q) (st : state) : state :=
  updatePointMeta i
    {| u_x := Some nx; u_y := Some ny; u_product := None; u_dose := None |} st.

Definition onProductChange (i : string) (value : string) (st : state) : state :=
  updatePointMeta i
    {| u_x := None; u_y := None; u_product := Some value; u_dose := None |} st.

Definition onDoseChange (i : string) (value : string) (st : state) : state :=
  updatePointMeta i
    {| u_x := None; u_y := None; u_product := None; u_dose := Some value |} st.

Definition onRefresh (p : AnnotationPoint) (st : state) : state :=
  updatePointMeta (pt_id p)
    {| u_x := Some (Math_round (pt_x p)); u_y := Some (Math_round (pt_y p));
       u_product := None; u_dose := None |} st.

Definition removePoint (i : string) (st : state) : state :=
  setPoints (filter (fun p => pt_id p ≠ i) (points st)) st.

(** The [onChange] of the file input, once a file is chosen. *)
Definition onNewFile (st : state) : state :=
  setImageFit None (setLandmarks [] (setPoints [] st)).

(** [image.onload]: the fit of the image into the default stage. *)
Definition onImageLoad (naturalWidth naturalHeight : Q) (st : state) : state :=
  let fit := fitImage (or_else naturalWidth DEFAULT_STAGE_WIDTH)
                      (or_else naturalHeight DEFAULT_STAGE_HEIGHT)
                      DEFAULT_STAGE_WIDTH DEFAULT_STAGE_HEIGHT in
  setStageSize {| width := width fit; height := height fit |}
    (setImageFit (Some fit) st).

(* ----------------------------------------------------------------- *)
(** *** snapPointToNearestLandmark *)

Record best : Type := mkBest { b_idx : nat; b_dist : Q }.

(** The distance that the loop computes for landmark [lm]. *)
Definition distTo (pt : AnnotationPoint) (lm : Landmark) : Q :=
  hypot (lm0 lm - pt_x pt) (lm1 lm - pt_y pt).

(** One turn of [for (let i = 0; i < landmarks.length; i++)]. *)
Definition nearer (pt : AnnotationPoint) (radius : Q) (i : nat)
    (e : option Landmark) (b : option best) : option best :=
  match e with
  | None => b
  | Some lm =>
      let d := distTo pt lm in
      if Qle_bool d radius
         && match b with
            | None => true
            | Some b0 => if Qlt_le_dec d (b_dist b0) then true else false
            end
      then Some {| b_idx := i; b_dist := d |}
      else b
  end.

(** The loop from index [i] on, over the entries not yet visited. *)
Fixpoint nearestFrom (pt : AnnotationPoint) (radius : Q) (i : nat)
    (rest : mesh) (b : option best) : option best :=
  match rest with
  | [] => b
  | e :: rest' => nearestFrom pt radius (S i) rest' (nearer pt radius i e b)
  end.

Definition default_radius : Q := 12.

(** [None] is the [TypeError] of reading [lm[0]] were [landmarks[best.idx]]
    falsy. *)
Definition snapPointToNearestLandmark (i : string) (radius : Q) (st : state)
    : option state :=
  match find (has_id i) (points st), landmarks st with
  | None, _ => Some st
  | Some _, [] => Some st
  | Some pt, _ =>
      match nearestFrom pt radius 0 (landmarks st) None with
      | None => Some st
      | Some b =>
          lm ← entry (landmarks st) (b_idx b);
          Some (updatePointMeta i
                  {| u_x := Some (lm0 lm); u_y := Some (lm1 lm);
                     u_product := None; u_dose := None |} st)
      end
  end.

(* ----------------------------------------------------------------- *)
(** *** setup: creating the detector *)

(** The inner [catch (errCreate)] block. *)
Definition setup_legacy (e : setup_env) (st : state) : state :=
  let st := console Warn "createDetector failed; trying legacy load():" st in
  let st := emit (EAwait LegacyLoad) st in
  match legacy_load e with
  | Returns created =>
      if mounted_after e LegacyLoad then setDetector created st else st
  | Throws =>
      console Error "Detector setup error:"
        (console Error "Both createDetector and legacy load() failed:" st)
  end.

Definition setup (e : setup_env) (st : state) : state :=
  let st := emit (EAwait TfSetBackend) st in
  match tf_setBackend e with
  | Throws => console Error "Detector setup error:" st
  | Returns _ =>
      let st := emit (EAwait TfReady) st in
      match tf_ready e with
      | Throws => console Error "Detector setup error:" st
      | Returns _ =>
          let st := emit (EAwait CreateDetector) st in
          match createDetector e with
          | Throws => setup_legacy e st
          | Returns created =>
              if mounted_after e CreateDetector then setDetector created st
              else
                match det_dispose created with
                | None => st
                | Some r =>
                    let st := emit EDispose st in
                    match r with
                    | Returns _ => st
                    | Throws => setup_legacy e st
                    end
                end
          end
      end
  end.

(* ----------------------------------------------------------------- *)
(** *** detectOnce *)

(** What the [try / catch] cascade over the call shapes leaves: the value
    of [predictions] ([None] is falsy), whether [cancelled] was set while
    one of the calls made was pending, and the calls awaited, in order. *)
Definition estimateCascade (e : detect_env)
    : option (list face) * bool * list shape :=
  let c1 := cancel_during e Plain in
  match estimateFaces e Plain with
  | Returns p => (p, c1, [Plain])
  | Throws =>
      let c2 := c1 || cancel_during e InputObject in
      match estimateFaces e InputObject with
      | Returns p => (p, c2, [Plain; InputObject])
      | Throws =>
          let c3 := c2 || cancel_during e WithConfig in
          match estimateFaces e WithConfig with
          | Returns p => (p, c3, [Plain; InputObject; WithConfig])
          | Throws => (None, c3, [Plain; InputObject; WithConfig])
          end
      end
  end.

(** [lipsIndices.map(...).filter(Boolean)]: a point, with a new
    identifier, for each index whose landmark is there. *)
Fixpoint defaultPoints (indices : list nat) (m : mesh) (st : state)
    : list AnnotationPoint * state :=
  match indices with
  | [] => ([], st)
  | i :: rest =>
      match entry m i with
      | None => defaultPoints rest m st
      | Some p =>
          let r := freshPoint (lm0 p) (lm1 p) st in
          let r' := defaultPoints rest m (snd r) in
          (fst r :: fst r', snd r')
      end
  end.

(** The outer [catch (err)]. *)
Definition detect_catch (st : state) : state :=
  console Error "detectOnce error:" st.

(** [detectOnce].  [points_seen] is the [points] of the render in which
    the effect was created, which the routine's closure holds: the effect
    depends on [[detector, imgEl, imageFit]] only, so it is not created anew
    when the marker list changes.  [st] is the component state when the
    routine resumes from its last [await]; every setter call of the routine
    comes after that, with no suspension point in between. *)
Definition detectOnce (points_seen : list AnnotationPoint) (e : detect_env)
    (st : state) : state :=
  if negb (canvas_ok e) then detect_catch st
  else
    let r := estimateCascade e in
    let predictions := fst (fst r) in
    let cancelled := snd (fst r) in
    let st := emits ((fun s => EAwait (EstimateFaces s)) <$> snd r) st in
    match predictions with
    | None =>
        detect_catch (console Error "All estimateFaces attempts failed:" st)
    | Some preds =>
        let st := emit (EReadCancelled cancelled) st in
        if cancelled then st
        else
          match preds with
          | [] => setLandmarks [] st
          | f :: _ =>
              match extractMesh f with
              | Throws => detect_catch st
              | Returns (m, warned) =>
                  let st := if warned : bool
                            then console Warn "Unknown prediction shape" st
                            else st in
                  let st := setLandmarks m st in
                  if bool_decide (length points_seen = 0%nat)
                     && bool_decide (0 < length m)%nat
                  then
                    let r := defaultPoints lipsIndices m st in
                    setPoints (fst r) (snd r)
                  else st
              end
          end
    end.

(* ----------------------------------------------------------------- *)
(** *** Sequences of marker operations *)

Inductive op : Type :=
  | OpAddPoint
  | OpAddPreset (name : preset)
  | OpDetect (points_seen : list AnnotationPoint) (e : detect_env)
  | OpUpdate (i : string) (data : update)
  | OpSnap (i : string) (radius : Q)
  | OpRemove (i : string)
  | OpNewFile
  | OpImageLoad (naturalWidth naturalHeight : Q).

Definition step (st : state) (o : op) : state :=
  match o with
  | OpAddPoint => onAddPoint st
  | OpAddPreset name => addPreset name st
  | OpDetect seen e => detectOnce seen e st
  | OpUpdate i data => updatePointMeta i data st
  | OpSnap i radius => default st (snapPointToNearestLandmark i radius st)
  | OpRemove i => removePoint i st
  | OpNewFile => onNewFile st
  | OpImageLoad w h => onImageLoad w h st
  end.

Definition run (ops : list op) (st : state) : state := fold_left step ops st.


(* ================================================================= *)
(** ** Properties, as predicates *)

(** What it is for [fitImage] to fit an image into a stage: the result is
    inside the stage, touches it along one side, and its other side is the
    rounding of the exactly proportional length. *)
Definition fits_stage (iw ih sw sh : Q) : Prop :=
  let r := fitImage iw ih sw sh in
  width r <= sw ∧ height r <= sh ∧ (width r = sw ∨ height r = sh) ∧
  ((width r = sw ∧ ∃ u, height r = Math_round u ∧ u * iw == sw * ih) ∨
   (height r = sh ∧ ∃ u, width r = Math_round u ∧ u * ih == sh * iw)).

(** A sample lies on the segment from [a] to [b]. *)
Definition on_segment (a b : xy) (s : sample) : Prop :=
  ∃ u, 0 <= u ∧ u <= 1
    ∧ s_x s == px a + (px b - px a) * u
    ∧ s_y s == py a + (py b - py a) * u.

(** The length of a polyline, as the sum of [hypot] over its segments. *)
Fixpoint polylineLength (pts : list xy) : Q :=
  match pts with
  | a :: (b :: _) as rest =>
      hypot (px b - px a) (py b - py a) + polylineLength rest
  | _ => 0
  end.

(** The segment lengths, by recursion on the polyline. *)
Fixpoint segments (pts : list xy) : list Q :=
  match pts with
  | a :: (b :: _) as rest =>
      hypot (px b - px a) (py b - py a) :: segments rest
  | _ => []
  end.

(** The identifiers of a marker list, in order. *)
Definition ids (ps : list AnnotationPoint) : list string := pt_id <$> ps.

(** The invariant of the marker list: the identifiers are pairwise
    distinct, and each was returned by one of the [nanoid] calls made so
    far. *)
Definition markers_ok (st : state) : Prop :=
  NoDup (ids (points st))
  ∧ Forall (fun i => ∃ k, (k < nonce st)%nat ∧ i = gen k) (ids (points st)).

(** [new] is a batch of markers made by consecutive [nanoid] calls that
    take the state from [st] to [st']. *)
Definition batch (st : state) (new : list AnnotationPoint) (st' : state)
    : Prop :=
  ids new = gen <$> seq (nonce st) (length new)
  ∧ nonce st' = (nonce st + length new)%nat
  ∧ points st' = points st
  ∧ landmarks st' = landmarks st
  ∧ stageSize st' = stageSize st
  ∧ trace st' = trace st
  ∧ detector st' = detector st.

(** The point that [indicesToXY] makes of a landmark. *)
Definition xyOf (lm : Landmark) : xy := {| px := lm0 lm; py := lm1 lm |}.

(** The midline that the bounding box gives: the vertical through its
    centre, from its top to its bottom. *)
Definition bboxMidline (landmarks : mesh) : midline :=
  let b := boundingBox landmarks in
  let cx := js_div (js_add (minX b) (maxX b)) 2 in
  {| mid_a := {| jx := cx; jy := minY b |};
     mid_b := {| jx := cx; jy := maxY b |} |}.

(** "A missing landmark index means: skip drawing", for the midline, which
    reads the landmarks [10] and [152]. *)
Definition midline_skipped_when_missing (landmarks : mesh) : Prop :=
  entry landmarks 10 = None ∨ entry landmarks 152 = None ->
  drawMidline true landmarks = [].

(** The events that a routine appended to the trace. *)
Definition events_since (st st' : state) : list event :=
  drop (length (trace st)) (trace st').




(** An event that changes no React state: an awaited call, a disposal, a
    read of the cancellation flag, or a console message. *)
Definition silent (ev : event) : Prop :=
  match ev with
  | ESetDetector _ | ESetLandmarks | ESetPoints => False
  | _ => True
  end.

(** The markers at the given landmarks, with the identifiers of the
    [nanoid] calls from rank [k] on, and empty product and dose. *)
Definition markersAt (lms : list Landmark) (k : nat) : list AnnotationPoint :=
  imap (fun j lm =>
          {| pt_id := gen (k + j); pt_x := lm0 lm; pt_y := lm1 lm;
             pt_product := Some EmptyString; pt_dose := Some EmptyString |})
       lms.

(** The landmarks of a mesh at the given indices, where there is one. *)
Definition presentAt (indices : list nat) (m : mesh) : list Landmark :=
  omap (entry m) indices.

(** The events of the awaited [estimateFaces] calls. *)
Definition awaits (calls : list shape) : list event :=
  (fun s => EAwait (EstimateFaces s)) <$> calls.

(** The two asynchronous routines, each with what it is given. *)
Inductive routine : Type :=
  | Setup (e : setup_env)
  | Detect (points_seen : list AnnotationPoint) (e : detect_env).

Definition exec (r : routine) (st : state) : state :=
  match r with
  | Setup e => setup e st
  | Detect seen e => detectOnce seen e st
  end.

(** Model loading fails: the backend cannot be set up, or the legacy
    [load] throws after [createDetector] threw (or after the disposal of
    a detector made too late threw). *)
Definition setup_fails (e : setup_env) : Prop :=
  tf_setBackend e = Throws
  ∨ tf_ready e = Throws
  ∨ (legacy_load e = Throws
     ∧ (createDetector e = Throws
        ∨ ∃ d, createDetector e = Returns d
            ∧ mounted_after e CreateDetector = false
            ∧ det_dispose d = Some Throws)).

(** Detection fails: the off-screen canvas cannot be drawn, or every call
    shape of [estimateFaces] throws, or the cascade ends with a falsy
    [predictions], or the routine goes on to read the first prediction and
    that throws. *)
Definition detect_fails (e : detect_env) : Prop :=
  canvas_ok e = false
  ∨ (∀ s, estimateFaces e s = Throws)
  ∨ fst (fst (estimateCascade e)) = None
  ∨ (∃ f preds, fst (fst (estimateCascade e)) = Some (f :: preds)
       ∧ snd (fst (estimateCascade e)) = false
       ∧ extractMesh f = Throws).

Definition fails (r : routine) : Prop :=
  match r with
  | Setup e => setup_fails e
  | Detect _ e => detect_fails e
  end.

(** From [st] to [st'] nothing happened but console output (and awaited
    calls): landmarks, markers and detector are what they were, no setter
    was called, and an error was written to the console. *)
Definition only_logged (st st' : state) : Prop :=
  landmarks st' = landmarks st
  ∧ points st' = points st
  ∧ detector st' = detector st
  ∧ Forall silent (events_since st st')
  ∧ ∃ msg, EConsole Error msg ∈ events_since st st'.

(** "The flag is checked after each suspension point": every awaited call
    is followed at once by a read of [cancelled]. *)
Definition read_after_every_await (evs : list event) : Prop :=
  ∀ k c, evs !! k = Some (EAwait c) ->
    ∃ v, evs !! S k = Some (EReadCancelled v).

Definition is_await (ev : event) : Prop :=
  match ev with EAwait _ => True | _ => False end.

Definition is_read (ev : event) : Prop :=
  match ev with EReadCancelled _ => True | _ => False end.


(** Either no landmark was seen and the four bounds are the sentinels, or
    all four are finite. *)
Definition bbox_settled (b : bbox) : Prop :=
  b = bbox_start
  ∨ (isFinite (minX b) ∧ isFinite (maxX b)
     ∧ isFinite (minY b) ∧ isFinite (maxY b)).

(* ================================================================= *)
(** ** More of the component: midline offsets *)

(** Arithmetic on [jsnum], as far as [perpDistanceToLine] needs it.  The
    type has a single zero; the sign of a zero shows only in a division by
    it, which [perpDistanceToLine] never makes ([vlen2 === 0] is tested
    first). *)
Definition js_signed (positive : bool) : jsnum :=
  if positive then PInf else NInf.

Definition js_mul (a b : jsnum) : jsnum :=
  match a, b with
  | Num p, Num q => Num (p * q)
  | NaN, _ | _, NaN => NaN
  | Num p, PInf | PInf, Num p =>
      if Qeq_bool p 0 then NaN
      else js_signed (if Qlt_le_dec 0 p then true else false)
  | Num p, NInf | NInf, Num p =>
      if Qeq_bool p 0 then NaN
      else js_signed (if Qlt_le_dec 0 p then false else true)
  | PInf, PInf | NInf, NInf => PInf
  | PInf, NInf | NInf, PInf => NInf
  end.

Definition js_quot (a b : jsnum) : jsnum :=
  match a, b with
  | Num p, Num q =>
      if Qeq_bool q 0
      then if Qeq_bool p 0 then NaN
           else js_signed (if Qlt_le_dec 0 p then true else false)
      else Num (p / q)
  | NaN, _ | _, NaN => NaN
  | Num _, _ => Num 0
  | PInf, Num q => js_signed (if Qlt_le_dec q 0 then false else true)
  | NInf, Num q => js_signed (if Qlt_le_dec q 0 then true else false)
  | _, _ => NaN
  end.

(** [x === 0]. *)
Definition js_is0 (a : jsnum) : bool :=
  match a with
  | Num p => Qeq_bool p 0
  | _ => false
  end.

(** [Math.round] keeps what is not finite. *)
Definition js_round (a : jsnum) : jsnum :=
  match a with
  | Num p => Num (Math_round p)
  | other => other
  end.

(** [Math.hypot]: an infinite argument wins over [NaN]. *)
Definition js_hypot (a b : jsnum) : jsnum :=
  match a, b with
  | Num p, Num q => Num (hypot p q)
  | PInf, _ | NInf, _ | _, PInf | _, NInf => PInf
  | _, _ => NaN
  end.

Definition vecSub (a b : jsxy) : jsxy :=
  {| jx := js_sub (jx a) (jx b); jy := js_sub (jy a) (jy b) |}.

Definition vecDot (a b : jsxy) : jsnum :=
  js_add (js_mul (jx a) (jx b)) (js_mul (jy a) (jy b)).

Definition vecLen (a : jsxy) : jsnum := js_hypot (jx a) (jy a).

Definition vecScale (a : jsxy) (s : jsnum) : jsxy :=
  {| jx := js_mul (jx a) s; jy := js_mul (jy a) s |}.

Definition vecAdd (a b : jsxy) : jsxy :=
  {| jx := js_add (jx a) (jx b); jy := js_add (jy a) (jy b) |}.

(** [{ dist, side }]. *)
Record lineOffset : Type := mkLineOffset { o_dist : jsnum; o_side : jsnum }.

Definition perpDistanceToLine (point a b : jsxy) : lineOffset :=
  let v := vecSub b a in
  let w := vecSub point a in
  let vlen2 := js_add (js_mul (jx v) (jx v)) (js_mul (jy v) (jy v)) in
  if js_is0 vlen2 then {| o_dist := vecLen w; o_side := Num 0 |}
  else
    let t := js_quot (vecDot w v) vlen2 in
    let proj := vecAdd a (vecScale v t) in
    let perp := vecSub point proj in
    let dist := vecLen perp in
    let cross := js_sub (js_mul (jx v) (jy w)) (js_mul (jy v) (jx w)) in
    {| o_dist := dist; o_side := cross |}.

(** An element of [pointOffsets]. *)
Record pointOffset : Type := mkPointOffset {
  po_id : string; po_dist : jsnum; po_side : jsnum
}.

Definition offsetOfPoint (mid : option midline) (pt : AnnotationPoint)
    : pointOffset :=
  match mid with
  | None => {| po_id := pt_id pt; po_dist := Num 0; po_side := Num 0 |}
  | Some m =>
      let r := perpDistanceToLine
                 {| jx := Num (pt_x pt); jy := Num (pt_y pt) |}
                 (mid_a m) (mid_b m) in
      {| po_id := pt_id pt; po_dist := js_round (o_dist r);
         po_side := o_side r |}
  end.

(** [points.map((pt) => ...)], with the [midlineEndpoints] of the render. *)
Definition pointOffsets (st : state) : list pointOffset :=
  map (offsetOfPoint (midlineEndpoints (landmarks st))) (points st).

Definition sideLabel (side : jsnum) : string :=
  if js_is0 side then "C"
  else if js_lt (Num 0) side then "L" else "R".

(** [pointOffsets.find((o) => o.id === p.id)], in the render of a
    marker. *)
Definition offsetFor (st : state) (p : AnnotationPoint) : option pointOffset :=
  find (fun o => bool_decide (po_id o = pt_id p)) (pointOffsets st).

(* ================================================================= *)
(** ** More of the component: colour helpers *)

(** Strings are strings of ASCII characters here. *)

(** [s.replace(c, "")] for a pattern of one character: its first
    occurrence goes. *)
Fixpoint removeFirst (c : Ascii.ascii) (s : string) : string :=
  match s with
  | EmptyString => EmptyString
  | String a rest =>
      if Ascii.eqb a c then rest else String a (removeFirst c rest)
  end.

(** [h.split("").map((c) => c + c).join("")]. *)
Fixpoint doubleChars (s : string) : string :=
  match s with
  | EmptyString => EmptyString
  | String a rest => String a (String a (doubleChars rest))
  end.

(** The [full] of [hexToRgba] and [darkenHex]: without the ["#"], and a
    shorthand of three digits written out. *)
Definition fullHex (hex : string) : string :=
  let h := removeFirst "#"%char hex in
  if (String.length h =? 3)%nat then doubleChars h else h.

(** The value of a hexadecimal digit, in either case. *)
Definition hexDigit (c : Ascii.ascii) : option Z :=
  let n := Z.of_nat (Ascii.nat_of_ascii c) in
  if (48 <=? n)%Z && (n <=? 57)%Z then Some (n - 48)%Z
  else if (97 <=? n)%Z && (n <=? 102)%Z then Some (n - 87)%Z
  else if (65 <=? n)%Z && (n <=? 70)%Z then Some (n - 55)%Z
  else None.

(** The white space that [parseInt] skips: tab, line feed, vertical tab,
    form feed, carriage return, space. *)
Definition isSpace (c : Ascii.ascii) : bool :=
  let n := Ascii.nat_of_ascii c in
  ((9 <=? n) && (n <=? 13))%nat || (n =? 32)%nat.

Fixpoint skipSpaces (s : string) : string :=
  match s with
  | String c rest => if isSpace c then skipSpaces rest else s
  | EmptyString => s
  end.

(** The digits that [parseInt] reads: the longest prefix of digits.
    [acc] is [None] until a digit has been read. *)
Fixpoint hexDigits (acc : option Z) (s : string) : option Z :=
  match s with
  | EmptyString => acc
  | String c rest =>
      match hexDigit c with
      | Some d => hexDigits (Some (16 * default 0 acc + d)%Z) rest
      | None => acc
      end
  end.

(** [parseInt(s, 16)]; [None] is [NaN].  White space is skipped, a sign is
    read, a prefix [0x] or [0X] is dropped, then the digits are read. *)
Definition parseInt16 (s : string) : option Z :=
  let s1 := skipSpaces s in
  let negative := match s1 with
                  | String "-"%char _ => true
                  | _ => false
                  end in
  let s2 := match s1 with
            | String "-"%char r => r
            | String "+"%char r => r
            | _ => s1
            end in
  let s3 := match s2 with
            | String "0"%char (String "x"%char r) => r
            | String "0"%char (String "X"%char r) => r
            | _ => s2
            end in
  (fun v => if negative then (- v)%Z else v) <$> hexDigits None s3.

(** [n.toString(16)] for an integer or [NaN]. *)
Definition toString16 (n : option Z) : string :=
  match n with
  | None => "NaN"
  | Some v =>
      let digits := NilZero.string_of_uint (N.to_hex_uint (Z.to_N (Z.abs v))) in
      if (v <? 0)%Z then String "-"%char digits else digits
  end.

Definition toHex (n : option Z) : string :=
  let s := toString16 n in
  if (String.length s =? 1)%nat then String "0"%char s else s.

(** [Math.max(0, Math.min(255, Math.floor(c * (1 - amount))))]; [NaN]
    stays [NaN]. *)
Definition darkenChannel (amount : Q) (c : option Z) : option Z :=
  (fun v => Z.max 0 (Z.min 255 (Qfloor (inject_Z v * (1 - amount))))) <$> c.

Definition darkenHex (hex : string) (amount : Q) : string :=
  let full := fullHex hex in
  let r := darkenChannel amount (parseInt16 (String.substring 0 2 full)) in
  let g := darkenChannel amount (parseInt16 (String.substring 2 2 full)) in
  let b := darkenChannel amount (parseInt16 (String.substring 4 2 full)) in
  String "#"%char (toHex r +:+ toHex g +:+ toHex b).

(** The colour of a well-formed [#rrggbb] string. *)
Definition colourOf (r g b : Z) : string :=
  String "#"%char (toHex (Some r) +:+ toHex (Some g) +:+ toHex (Some b)).

(* ================================================================= *)
(** ** More properties, as predicates *)

(** [b] is the bounding box of the landmarks of [seen]: untouched when
    there is none, else finite, around every landmark, with each bound the
    coordinate of one of them. *)
Definition bbox_of (seen : mesh) (b : bbox) : Prop :=
  ((∀ i, entry seen i = None) ∧ b = bbox_start)
  ∨ ∃ x0 x1 y0 y1,
      b = {| minX := Num x0; maxX := Num x1; minY := Num y0; maxY := Num y1 |}
      ∧ (∀ i lm, entry seen i = Some lm ->
           x0 <= lm0 lm ∧ lm0 lm <= x1 ∧ y0 <= lm1 lm ∧ lm1 lm <= y1)
      ∧ (∃ i lm, entry seen i = Some lm ∧ lm0 lm = x0)
      ∧ (∃ i lm, entry seen i = Some lm ∧ lm0 lm = x1)
      ∧ (∃ i lm, entry seen i = Some lm ∧ lm1 lm = y0)
      ∧ (∃ i lm, entry seen i = Some lm ∧ lm1 lm = y1).

(** A finite point, as [perpDistanceToLine] takes it. *)
Definition jsOf (p : xy) : jsxy := {| jx := Num (px p); jy := Num (py p) |}.

(** The cross product [(b - a) x (p - a)]: positive on one side of the
    line from [a] to [b], negative on the other, zero on the line. *)
Definition cross (p a b : xy) : Q :=
  (px b - px a) * (py p - py a) - (py b - py a) * (px p - px a).


(** What [toHex] and [parseInt16] do on one channel value: the two digits
    read back as the value. *)
Definition two_digits_back (n : Z) : bool :=
  match toHex (Some n) with
  | String a (String b EmptyString) =>
      match parseInt16 (String a (String b EmptyString)) with
      | Some m => (m =? n)%Z
      | None => false
      end
  | _ => false
  end.

(** A marker as the handlers make it: with empty product and dose. *)
Definition blank (p : AnnotationPoint) : Prop :=
  pt_product p = Some EmptyString ∧ pt_dose p = Some EmptyString.

(** The marker [p] with its coordinates rounded. *)
Definition rounded (p : AnnotationPoint) : AnnotationPoint :=
  {| pt_id := pt_id p; pt_x := Math_round (pt_x p);
     pt_y := Math_round (pt_y p);
     pt_product := pt_product p; pt_dose := pt_dose p |}.

(* ================================================================= *)
(** ** More sample inputs *)

(** A mesh with a landmark at each of the 468 indices of the face mesh, on
    a parabola. *)
Definition dense_mesh : mesh :=
  (fun k => Some {| lm0 := inject_Z (Z.of_nat k);
                    lm1 := inject_Z (Z.of_nat (k * k));
                    lm2 := None |})
  <$> seq 0 468.

(* ================================================================= *)
(** ** fitImage *)

Lemma Math_round_int (k : Z) : Math_round (inject_Z k) = inject_Z k.
Proof.
  unfold Math_round. f_equal.
  pose proof (Qfloor_le (inject_Z k + (1 # 2))) as Hle.
  pose proof (Qlt_floor (inject_Z k + (1 # 2))) as Hlt.
  generalize dependent (Qfloor (inject_Z k + (1 # 2))). intros f Hle Hlt.
  rewrite inject_Z_plus in Hlt.
  assert (inject_Z f < inject_Z (k + 1)) as H1.
  { rewrite inject_Z_plus. change (inject_Z 1) with 1 in *. lra. }
  assert (inject_Z k < inject_Z (f + 1)) as H2.
  { rewrite inject_Z_plus. change (inject_Z 1) with 1 in *. lra. }
  rewrite <- Zlt_Qlt in H1, H2. lia.
Qed.

Lemma Math_round_mono (x y : Q) : x <= y -> Math_round x <= Math_round y.
Proof.
  intros H. unfold Math_round. rewrite <- Zle_Qle.
  apply Qfloor_resp_le. lra.
Qed.

Lemma div_ratio (s iw ih : Q) : 0 < iw -> 0 < ih -> s / (iw / ih) == s * ih / iw.
Proof. intros. field. split; lra. Qed.

Lemma ratio_lt_cross (sw sh iw ih : Q) :
  0 < sh -> 0 < ih -> (sw / sh < iw / ih <-> sw * ih < iw * sh).
Proof.
  intros Hsh Hih.
  assert (0 < sh * ih) as Hp by (by apply Qmult_lt_0_compat).
  rewrite <- (Qmult_lt_r _ _ _ Hp).
  assert (sw / sh * (sh * ih) == sw * ih) as -> by (field; lra).
  assert (iw / ih * (sh * ih) == iw * sh) as -> by (field; lra).
  reflexivity.
Qed.

(** [fitImage] fits any stage whose sides [Math.round] does not
    increase. *)
Lemma fitImage_fits_round_stable (iw ih sw sh : Q) :
  0 < iw -> 0 < ih -> 0 < sw -> 0 < sh ->
  Math_round sw <= sw -> Math_round sh <= sh ->
  fits_stage iw ih sw sh.
Proof.
  intros Hiw Hih Hsw Hsh Isw Ish.
  unfold fits_stage, fitImage.
  destruct (Qlt_le_dec (sw / sh) (iw / ih)) as [Hlt | Hge]; cbn [width height].
  - apply (proj1 (ratio_lt_cross _ _ _ _ Hsh Hih)) in Hlt.
    assert (sw / (iw / ih) <= sh) as Hu.
    { rewrite div_ratio by assumption. apply Qle_shift_div_r; [assumption|]. lra. }
    apply Math_round_mono in Hu.
    repeat split.
    + lra.
    + lra.
    + by left.
    + left. split; [done|]. exists (sw / (iw / ih)). split; [done|].
      rewrite div_ratio by assumption. field. lra.
  - assert (sh * (iw / ih) <= sw) as Hu.
    { assert (~ sw / sh < iw / ih) as Hn by lra.
      rewrite (ratio_lt_cross _ _ _ _ Hsh Hih) in Hn.
      assert (sh * (iw / ih) == iw * sh / ih) as -> by (field; lra).
      apply Qle_shift_div_r; [assumption|]. lra. }
    apply Math_round_mono in Hu.
    repeat split.
    + lra.
    + lra.
    + by right.
    + right. split; [done|]. exists (sh * (iw / ih)). split; [done|].
      field. lra.
Qed.


(* ================================================================= *)
(** ** updatePointMeta *)

Lemma has_id_true i pt : has_id i pt = true <-> pt_id pt = i.
Proof. unfold has_id. by rewrite bool_decide_eq_true. Qed.

Lemma has_id_false i pt : has_id i pt = false <-> pt_id pt ≠ i.
Proof. unfold has_id. by rewrite bool_decide_eq_false. Qed.

Lemma points_updatePointMeta i data st :
  points (updatePointMeta i data st)
  = map (fun pt => if has_id i pt then spread pt data else pt) (points st).
Proof. reflexivity. Qed.

Lemma update_absent_id i data (ps : list AnnotationPoint) :
  Forall (fun pt => pt_id pt ≠ i) ps ->
  map (fun pt => if has_id i pt then spread pt data else pt) ps = ps.
Proof.
  induction 1 as [|pt ps Hpt _ IH]; [done|].
  cbn [map]. rewrite IH. apply has_id_false in Hpt. by rewrite Hpt.
Qed.

(** The marker at each position after [updatePointMeta]. *)
Lemma lookup_updatePointMeta i data st k pt :
  points st !! k = Some pt ->
  points (updatePointMeta i data st) !! k
  = Some (if has_id i pt then spread pt data else pt).
Proof.
  intros Hk. by rewrite points_updatePointMeta, list_lookup_fmap, Hk.
Qed.

Lemma length_updatePointMeta i data st :
  length (points (updatePointMeta i data st)) = length (points st).
Proof. by rewrite points_updatePointMeta, length_map. Qed.

(** C8.  [updatePointMeta id data] keeps the length and the order of the
    marker list; the marker at each position keeps its identifier; a marker
    whose identifier is not [id] is unchanged; in a marker whose identifier
    is [id], each of [x], [y], [product], [dose] takes the value given in
    [data] when the key is present and keeps its value when it is absent;
    when no marker has identifier [id], the list is unchanged; and the
    landmarks, detector, image fit and stage size are untouched. *)
Theorem updatePointMeta_frame (i : string) (data : update) (st : state) :
  let st' := updatePointMeta i data st in
  length (points st') = length (points st)
  ∧ (∀ k pt, points st !! k = Some pt ->
       ∃ pt', points st' !! k = Some pt'
         ∧ pt_id pt' = pt_id pt
         ∧ (pt_id pt ≠ i -> pt' = pt)
         ∧ (pt_id pt = i ->
              pt_x pt' = default (pt_x pt) (u_x data)
              ∧ pt_y pt' = default (pt_y pt) (u_y data)
              ∧ pt_product pt' = from_option Some (pt_product pt) (u_product data)
              ∧ pt_dose pt' = from_option Some (pt_dose pt) (u_dose data)))
  ∧ (Forall (fun pt => pt_id pt ≠ i) (points st) -> points st' = points st)
  ∧ landmarks st' = landmarks st
  ∧ detector st' = detector st
  ∧ imageFit st' = imageFit st
  ∧ stageSize st' = stageSize st.
Proof.
  cbn zeta. split_and!; try done.
  - apply length_updatePointMeta.
  - intros k pt Hk.
    exists (if has_id i pt then spread pt data else pt).
    split; [by apply lookup_updatePointMeta|].
    destruct (has_id i pt) eqn:Hid.
    + apply has_id_true in Hid. by split_and!.
    + apply has_id_false in Hid. by split_and!.
  - rewrite points_updatePointMeta. apply update_absent_id.
Qed.

(* ================================================================= *)
(** ** snapPointToNearestLandmark *)






(* ================================================================= *)
(** ** samplesAlong *)

Section Samples.

Hypothesis hypot_nonneg : ∀ x y, 0 <= hypot x y.

Lemma length_segments pts : length (segments pts) = (length pts - 1)%nat.
Proof.
  induction pts as [|a [|b pts] IH]; [done..|].
  cbn [segments length] in *. lia.
Qed.

Lemma lookup_segments pts k a b :
  pts !! k = Some a -> pts !! S k = Some b ->
  segments pts !! k = Some (hypot (px b - px a) (py b - py a)).
Proof.
  revert k. induction pts as [|a0 [|b0 pts] IH]; intros k Ha Hb; [done..|].
  destruct k as [|k].
  - cbn in Ha, Hb. by simplify_eq.
  - cbn [segments]. rewrite lookup_cons. by apply IH.
Qed.

Lemma segLensOf_segments pts : segLensOf pts = Some (segments pts).
Proof.
  unfold segLensOf. apply mapM_Some.
  apply Forall2_same_length_lookup. split.
  - by rewrite length_seq, length_segments.
  - intros k i l Hi Hl.
    apply lookup_seq in Hi as [-> Hlt]. cbn [Nat.add].
    destruct (pts !! k) as [a|] eqn:Ha.
    2:{ apply lookup_ge_None in Ha. lia. }
    destruct (pts !! S k) as [b|] eqn:Hb.
    2:{ apply lookup_ge_None in Hb. lia. }
    cbn. rewrite (lookup_segments pts k a b Ha Hb) in Hl. congruence.
Qed.

Lemma segments_nonneg pts : Forall (fun l => 0 <= l) (segments pts).
Proof using hypot_nonneg.
  induction pts as [|a [|b pts] IH]; [constructor..|].
  cbn [segments]. constructor; [apply hypot_nonneg | done].
Qed.

Lemma fold_plus_shift (ls : list Q) (acc : Q) :
  fold_left Qplus ls acc == acc + fold_left Qplus ls 0.
Proof.
  revert acc. induction ls as [|l ls IH]; intros acc; cbn [fold_left].
  - lra.
  - rewrite (IH (acc + l)), (IH (0 + l)). lra.
Qed.

Lemma fold_plus_ge (ls : list Q) (acc : Q) :
  Forall (fun l => 0 <= l) ls -> acc <= fold_left Qplus ls acc.
Proof.
  intros H. revert acc. induction H as [|l ls Hl _ IH]; intros acc; cbn [fold_left].
  - lra.
  - specialize (IH (acc + l)). lra.
Qed.

Lemma totalOf_polylineLength pts :
  totalOf (segments pts) == polylineLength pts.
Proof.
  unfold totalOf.
  induction pts as [|a [|b pts] IH]; [reflexivity..|].
  change (fold_left Qplus (segments (b :: pts))
            (0 + hypot (px b - px a) (py b - py a))
          == hypot (px b - px a) (py b - py a) + polylineLength (b :: pts)).
  rewrite fold_plus_shift, IH. lra.
Qed.

(** The [while] loop stops inside [rest], on a segment that reaches arc
    length [t], or it runs off the end with [accum] still below [t]. *)
Lemma findSegment_spec (t : Q) (rest : list Q) (accum : Q) (segIdx : nat) :
  accum < t ->
  let found := findSegment t rest accum segIdx in
  (∃ l, rest !! (snd found - segIdx)%nat = Some l
     ∧ (segIdx ≤ snd found)%nat
     ∧ fst found < t ∧ t <= fst found + l)
  ∨ (snd found = (segIdx + length rest)%nat
     ∧ fst found = fold_left Qplus rest accum
     ∧ fst found < t).
Proof.
  revert accum segIdx. induction rest as [|l rest IH]; intros accum segIdx Hacc.
  - right. cbn. split_and!; [lia | done | done].
  - cbn [findSegment].
    destruct (Qlt_le_dec (accum + l) t) as [Hlt | Hge].
    + destruct (IH (accum + l) (S segIdx) Hlt)
        as [(l' & Hl' & Hle & Hlo & Hhi) | (Hidx & Hsum & Hlo)].
      * left. exists l'. split_and!; try done; [|lia].
        replace (snd (findSegment t rest (accum + l) (S segIdx)) - segIdx)%nat
          with (S (snd (findSegment t rest (accum + l) (S segIdx)) - S segIdx))
          by lia.
        by rewrite lookup_cons.
      * right. split_and!; try done. rewrite Hidx. cbn [length]. lia.
    + left. exists l. cbn [fst snd]. rewrite Nat.sub_diag.
      split_and!; try done.
Qed.

Lemma or_else_nonzero (a d : Q) : ¬ a == 0 -> or_else a d = a.
Proof.
  intros H. unfold or_else. destruct (Qeq_bool a 0) eqn:E; [|done].
  apply Qeq_bool_iff in E. contradiction.
Qed.

Lemma arc_below_total (n s : nat) (total : Q) :
  (s < n)%nat -> 0 < total ->
  let t := (inject_Z (Z.of_nat s) + (1 # 2)) / inject_Z (Z.of_nat n) * total in
  0 < t ∧ t < total.
Proof.
  intros Hs Htot. cbn zeta.
  assert (0 <= inject_Z (Z.of_nat s)) as Hs0.
  { change 0 with (inject_Z 0). rewrite <- Zle_Qle. lia. }
  assert (inject_Z (Z.of_nat s) + 1 <= inject_Z (Z.of_nat n)) as Hsn.
  { change 1 with (inject_Z 1). rewrite <- inject_Z_plus, <- Zle_Qle. lia. }
  generalize dependent (inject_Z (Z.of_nat s)).
  generalize dependent (inject_Z (Z.of_nat n)). intros qn qs Hs0 Hsn.
  assert (0 < qn) as Hn by lra.
  assert (0 < (qs + (1 # 2)) / qn) as Hlo.
  { apply Qlt_shift_div_l; lra. }
  assert ((qs + (1 # 2)) / qn < 1) as Hhi.
  { apply Qlt_shift_div_r; lra. }
  generalize dependent ((qs + (1 # 2)) / qn). intros r Hlo Hhi.
  split.
  - by apply Qmult_lt_0_compat.
  - rewrite <- (Qmult_1_l total) at 2. by apply Qmult_lt_compat_r.
Qed.

(** On a polyline of positive length, every sample is computed from reads
    in range, and lies on one of the segments. *)
Lemma sampleAt_on_segment (pts : list xy) (n s : nat) :
  (s < n)%nat ->
  0 < totalOf (segments pts) ->
  ∃ smp, sampleAt pts (segments pts) (totalOf (segments pts)) n s = Some smp
    ∧ ∃ k a b, pts !! k = Some a ∧ pts !! S k = Some b ∧ on_segment a b smp.
Proof using hypot_nonneg.
  intros Hs Htot. unfold sampleAt.
  destruct (arc_below_total n s _ Hs Htot) as [Ht0 Htt].
  set (t := (inject_Z (Z.of_nat s) + (1 # 2)) / inject_Z (Z.of_nat n)
            * totalOf (segments pts)) in *.
  clearbody t.
  destruct (findSegment_spec t (segments pts) 0 0%nat Ht0)
    as [(l & Hl & _ & Hlo & Hhi) | (_ & Hsum & Hlo)].
  2:{ unfold totalOf in Htt. rewrite <- Hsum in Htt. lra. }
  rewrite Nat.sub_0_r in Hl.
  set (found := findSegment t (segments pts) 0 0%nat) in *.
  destruct found as [accum k]. cbn [fst snd] in *.
  assert (k < length (segments pts))%nat as Hk by (by eapply lookup_lt_Some).
  rewrite bool_decide_eq_false_2 by lia.
  rewrite Hl. cbn [mbind option_bind].
  rewrite length_segments in Hk.
  destruct (pts !! k) as [a|] eqn:Ha.
  2:{ apply lookup_ge_None in Ha. lia. }
  destruct (pts !! S k) as [b|] eqn:Hb.
  2:{ apply lookup_ge_None in Hb. lia. }
  cbn [mbind option_bind]. eexists. split; [reflexivity|].
  exists k, a, b. split_and!; try done.
  assert (0 < l) as Hlpos by lra.
  rewrite or_else_nonzero by lra.
  exists ((t - accum) / l). cbn [s_x s_y]. split_and!.
  - apply Qle_shift_div_l; lra.
  - apply Qle_shift_div_r; lra.
  - reflexivity.
  - reflexivity.
Qed.

(** C10.  [samplesAlong pts n] always returns: no array read is out of
    range.  It returns the empty list when [pts] has fewer than two points
    or the polyline has length [0]; otherwise it returns exactly [n]
    samples, and each of them lies on a segment [pts[k]], [pts[k+1]] of the
    polyline.  ([n] is a natural number; the statement holds for [n = 0]
    too, with no sample.)  The lengths are those of [Math.hypot], of which
    only [0 <= hypot x y] is used. *)
Theorem samplesAlong_total_in_bounds (pts : list xy) (n : nat) :
  ∃ samples, samplesAlong pts n = Some samples
    ∧ ((length pts < 2)%nat ∨ polylineLength pts == 0 -> samples = [])
    ∧ (¬ ((length pts < 2)%nat ∨ polylineLength pts == 0) ->
         length samples = n
         ∧ Forall (fun smp =>
                     ∃ k a b, pts !! k = Some a ∧ pts !! S k = Some b
                       ∧ on_segment a b smp) samples).
Proof using hypot_nonneg.
  unfold samplesAlong.
  destruct (bool_decide (length pts < 2)%nat) eqn:Hlen.
  { apply bool_decide_eq_true in Hlen. exists []. split_and!; try done.
    intros H. destruct H. by left. }
  apply bool_decide_eq_false in Hlen.
  rewrite segLensOf_segments. cbn [mbind option_bind].
  destruct (Qeq_bool (totalOf (segments pts)) 0) eqn:Htot.
  { apply Qeq_bool_iff in Htot. rewrite totalOf_polylineLength in Htot.
    exists []. split_and!; try done. intros H. destruct H. by right. }
  assert (¬ polylineLength pts == 0) as Hne.
  { intros H. rewrite <- totalOf_polylineLength in H.
    apply Qeq_bool_iff in H. congruence. }
  assert (0 < totalOf (segments pts)) as Hpos.
  { pose proof (fold_plus_ge (segments pts) 0 (segments_nonneg pts)) as Hge.
    fold (totalOf (segments pts)) in Hge.
    rewrite totalOf_polylineLength in Hge |- *. lra. }
  assert (∀ s, s ∈ seq 0 n ->
            ∃ smp, sampleAt pts (segments pts) (totalOf (segments pts)) n s
                   = Some smp
              ∧ ∃ k a b, pts !! k = Some a ∧ pts !! S k = Some b
                  ∧ on_segment a b smp) as Hall.
  { intros s Hs. apply elem_of_seq in Hs. apply sampleAt_on_segment; [lia | done]. }
  destruct (mapM (sampleAt pts (segments pts) (totalOf (segments pts)) n)
              (seq 0 n)) as [samples|] eqn:HmapM.
  2:{ assert (is_Some (mapM (sampleAt pts (segments pts)
                               (totalOf (segments pts)) n) (seq 0 n))) as Hs.
      { apply mapM_is_Some_2, Forall_forall. intros s Hs.
        destruct (Hall s Hs) as (smp & Hsmp & _). by exists smp. }
      rewrite HmapM in Hs. by destruct Hs. }
  exists samples. split_and!; try done.
  - intros [H | H]; [lia | contradiction].
  - intros _. apply mapM_Some in HmapM. split.
    + apply Forall2_length in HmapM. by rewrite length_seq in HmapM.
    + apply Forall_forall. intros smp Hsmp.
      apply list_elem_of_lookup in Hsmp as [j Hj].
      destruct (Forall2_lookup_r _ _ _ _ _ HmapM Hj) as (s & Hs & Hsmp).
      destruct (Hall s) as (smp' & Hsmp' & Hon).
      { apply list_elem_of_lookup. by exists j. }
      rewrite Hsmp in Hsmp'. by injection Hsmp' as <-.
Qed.

End Samples.

(* ================================================================= *)
(** ** Identifiers of the marker list *)

Lemma freshPoint_batch x y st :
  batch st [fst (freshPoint x y st)] (snd (freshPoint x y st)).
Proof. unfold batch. cbn. split_and!; try done; lia. Qed.

Lemma batch_nil st : batch st [] st.
Proof. unfold batch. cbn. split_and!; try done; lia. Qed.

Lemma batch_app st new1 st1 new2 st2 :
  batch st new1 st1 -> batch st1 new2 st2 -> batch st (new1 ++ new2) st2.
Proof.
  intros (Hi1 & Hn1 & Hp1 & Hl1 & Hs1 & Ht1 & Hd1)
         (Hi2 & Hn2 & Hp2 & Hl2 & Hs2 & Ht2 & Hd2).
  unfold batch, ids in *. split_and!; try congruence.
  - rewrite fmap_app, length_app, seq_app, fmap_app, Hi1, Hi2.
    by rewrite Hn1.
  - rewrite length_app. lia.
Qed.

Lemma fallbackPoints_batch offsets cx cy st :
  batch st (fst (fallbackPoints offsets cx cy st))
           (snd (fallbackPoints offsets cx cy st))
  ∧ length (fst (fallbackPoints offsets cx cy st)) = length offsets.
Proof.
  revert st. induction offsets as [|o offsets IH]; intros st.
  - split; [apply batch_nil | done].
  - cbn [fallbackPoints fst snd].
    destruct (IH (snd (freshPoint (cx + (inject_Z o - (3 # 2)) * 12)
                                  (cy + (inject_Z o - (3 # 2)) * 10) st)))
      as [Hb Hlen].
    split.
    + apply (batch_app _ [_] _ _ _ (freshPoint_batch _ _ st) Hb).
    + cbn [length]. by rewrite Hlen.
Qed.

Lemma presetPoints_batch mid th indices newPts st0 st :
  batch st0 newPts st ->
  batch st0 (fst (presetPoints mid th indices newPts st))
            (snd (presetPoints mid th indices newPts st))
  ∧ length (fst (presetPoints mid th indices newPts st))
    = (length newPts + length indices)%nat.
Proof.
  revert newPts st. induction indices as [|idx indices IH]; intros newPts st Hb.
  - cbn. split; [done | lia].
  - cbn [presetPoints].
    match goal with
    | |- context [presetPoints _ _ _ (newPts ++ [fst ?r]) (snd ?r)] =>
        set (made := r)
    end.
    assert (batch st [fst made] (snd made)) as Hmade.
    { subst made. repeat case_match; apply freshPoint_batch. }
    destruct (IH (newPts ++ [fst made]) (snd made)
                (batch_app _ _ _ _ _ Hb Hmade)) as [Hb' Hlen].
    split; [done|]. rewrite Hlen, length_app. cbn [length]. lia.
Qed.

Lemma defaultPoints_batch indices (m : mesh) st :
  batch st (fst (defaultPoints indices m st))
           (snd (defaultPoints indices m st)).
Proof.
  revert st. induction indices as [|i indices IH]; intros st.
  - apply batch_nil.
  - cbn [defaultPoints]. destruct (entry m i) as [p|]; [|apply IH].
    cbn [fst snd].
    apply (batch_app _ [_] _ _ _ (freshPoint_batch _ _ st) (IH _)).
Qed.

Section Fresh.

(** [nanoid] never returns the same identifier twice. *)
Hypothesis gen_fresh : ∀ j k, gen j = gen k -> j = k.

Lemma NoDup_gen_seq (a n : nat) : NoDup (gen <$> seq a n).
Proof using gen_fresh.
  apply NoDup_fmap_2; [|apply NoDup_seq].
  intros j k. apply gen_fresh.
Qed.

(** Setting the marker list to a batch. *)
Lemma markers_ok_replace st new st' :
  batch st new st' -> markers_ok (setPoints new st').
Proof using gen_fresh.
  intros (Hi & Hn & _). unfold markers_ok. cbn [setPoints emit points nonce].
  rewrite Hi, Hn. split.
  - apply NoDup_gen_seq.
  - apply Forall_fmap, Forall_forall. intros k Hk. apply elem_of_seq in Hk.
    exists k. split; [lia | done].
Qed.

(** Appending a batch to the marker list. *)
Lemma markers_ok_append st new st' :
  markers_ok st -> batch st new st' ->
  markers_ok (setPoints (points st' ++ new) st').
Proof using gen_fresh.
  intros [Hnd Hissued] (Hi & Hn & Hp & _).
  unfold markers_ok. cbn [setPoints emit points nonce].
  rewrite Hp, Hn. unfold ids in *. rewrite fmap_app, Hi. split.
  - apply NoDup_app. split_and!; [done | | apply NoDup_gen_seq].
    intros i Hold Hnew.
    rewrite Forall_forall in Hissued. destruct (Hissued i Hold) as (k & Hk & ->).
    apply list_elem_of_fmap in Hnew as (k' & Heq & Hk').
    apply gen_fresh in Heq as <-. apply elem_of_seq in Hk'. lia.
  - apply Forall_app. split.
    + eapply Forall_impl; [exact Hissued|].
      intros i (k & Hk & ->). exists k. split; [lia | done].
    + apply Forall_fmap, Forall_forall. intros k Hk. apply elem_of_seq in Hk.
      exists k. split; [lia | done].
Qed.

(** A step that keeps the identifiers, in order, or drops some of them. *)
Lemma markers_ok_sublist st st' :
  markers_ok st -> ids (points st') `sublist_of` ids (points st) ->
  (nonce st ≤ nonce st')%nat -> markers_ok st'.
Proof.
  intros [Hnd Hissued] Hsub Hn. split.
  - by eapply sublist_NoDup.
  - apply Forall_forall. intros i Hi. rewrite Forall_forall in Hissued.
    destruct (Hissued i (elem_of_sublist _ _ _ Hi Hsub)) as (k & Hk & ->).
    exists k. split; [lia | done].
Qed.

Lemma ids_update i data (ps : list AnnotationPoint) :
  ids (map (fun pt => if has_id i pt then spread pt data else pt) ps) = ids ps.
Proof.
  unfold ids. induction ps as [|p ps IH]; [done|].
  cbn [map fmap list_fmap]. cbn [map fmap list_fmap] in IH. rewrite IH.
  by destruct (has_id i p).
Qed.

Lemma ids_filter_sublist (P : AnnotationPoint -> Prop)
    `{∀ p, Decision (P p)} (ps : list AnnotationPoint) :
  ids (filter P ps) `sublist_of` ids ps.
Proof. unfold ids. apply fmap_sublist, sublist_filter. Qed.

Lemma emits_cons e es st : emits (e :: es) st = emits es (emit e st).
Proof. reflexivity. Qed.

Lemma points_emits es st : points (emits es st) = points st.
Proof.
  revert st. induction es as [|e es IH]; intros st; [done|].
  by rewrite emits_cons, (IH (emit e st)).
Qed.

Lemma nonce_emits es st : nonce (emits es st) = nonce st.
Proof.
  revert st. induction es as [|e es IH]; intros st; [done|].
  by rewrite emits_cons, (IH (emit e st)).
Qed.

Lemma landmarks_emits es st : landmarks (emits es st) = landmarks st.
Proof.
  revert st. induction es as [|e es IH]; intros st; [done|].
  by rewrite emits_cons, (IH (emit e st)).
Qed.

Lemma detector_emits es st : detector (emits es st) = detector st.
Proof.
  revert st. induction es as [|e es IH]; intros st; [done|].
  by rewrite emits_cons, (IH (emit e st)).
Qed.

Lemma trace_emits es st : trace (emits es st) = trace st ++ es.
Proof.
  revert st. induction es as [|e es IH]; intros st.
  - by rewrite app_nil_r.
  - rewrite emits_cons, (IH (emit e st)). cbn [emit trace].
    by rewrite <- app_assoc.
Qed.

(** What [detectOnce] does to the marker list: nothing, or, when the list
    it saw was empty and it got a mesh that is not, it sets the list to the
    default points of that mesh. *)
Lemma detectOnce_markers seen e st :
  (points (detectOnce seen e st) = points st
   ∧ nonce (detectOnce seen e st) = nonce st)
  ∨ (∃ m st1, points st1 = points st ∧ nonce st1 = nonce st
       ∧ landmarks st1 = m
       ∧ seen = [] ∧ m ≠ []
       ∧ detectOnce seen e st
         = setPoints (fst (defaultPoints lipsIndices m st1))
                     (snd (defaultPoints lipsIndices m st1))).
Proof.
  unfold detectOnce.
  destruct (canvas_ok e); cbn [negb]; [|by left].
  destruct (estimateCascade e) as [[predictions cancelled] calls].
  cbn [fst snd].
  destruct predictions as [preds|].
  2:{ left. cbn. by rewrite points_emits, nonce_emits. }
  destruct cancelled.
  { left. cbn. by rewrite points_emits, nonce_emits. }
  destruct preds as [|f preds].
  { left. cbn. by rewrite points_emits, nonce_emits. }
  destruct (extractMesh f) as [[m warned]|].
  2:{ left. cbn. by rewrite points_emits, nonce_emits. }
  destruct (bool_decide (length seen = 0%nat)) eqn:Hseen; cbn [andb].
  2:{ left. destruct warned; cbn; by rewrite points_emits, nonce_emits. }
  destruct (bool_decide (0 < length m)%nat) eqn:Hm.
  2:{ left. destruct warned; cbn; by rewrite points_emits, nonce_emits. }
  right. apply bool_decide_eq_true in Hseen, Hm.
  eexists m, _. split_and!; [| | | | |reflexivity].
  - destruct warned; cbn; by rewrite points_emits.
  - destruct warned; cbn; by rewrite nonce_emits.
  - by destruct warned.
  - by apply length_zero_iff_nil.
  - intros ->. cbn in Hm. lia.
Qed.

Lemma snap_cases i radius st :
  snapPointToNearestLandmark i radius st = None
  ∨ snapPointToNearestLandmark i radius st = Some st
  ∨ ∃ data, snapPointToNearestLandmark i radius st
            = Some (updatePointMeta i data st).
Proof.
  unfold snapPointToNearestLandmark.
  destruct (find (has_id i) (points st)); [|by right; left].
  destruct (landmarks st) as [|e0 lms]; [by right; left|].
  destruct (nearestFrom _ _ _ _ _) as [b|]; [|by right; left].
  destruct (entry _ _) as [lm|]; cbn [mbind option_bind]; [|by left].
  right; right. by eexists.
Qed.

Lemma step_markers_ok st o : markers_ok st -> markers_ok (step st o).
Proof using gen_fresh.
  intros Hok. destruct o as [|name|seen e|i data|i radius|i| |w h]; cbn [step].
  - (* onAddPoint *)
    unfold onAddPoint.
    apply (markers_ok_append st [_] _ Hok), freshPoint_batch.
  - (* addPreset *)
    unfold addPreset. destruct (landmarks st) as [|e0 lms] eqn:Hlms.
    + apply (markers_ok_append st _ _ Hok), fallbackPoints_batch.
    + apply (markers_ok_append st _ _ Hok).
      rewrite <- Hlms. apply presetPoints_batch, batch_nil.
  - (* detectOnce *)
    destruct (detectOnce_markers seen e st)
      as [[Hp Hn] | (m & st1 & Hp & Hn & _ & _ & _ & ->)].
    + apply (markers_ok_sublist st); [done | by rewrite Hp | lia].
    + apply (markers_ok_replace st1), defaultPoints_batch.
  - (* updatePointMeta *)
    apply (markers_ok_sublist st); [done | | done].
    rewrite points_updatePointMeta, ids_update. done.
  - (* snapPointToNearestLandmark *)
    destruct (snap_cases i radius st) as [-> | [-> | (data & ->)]];
      cbn [from_option id]; try done.
    apply (markers_ok_sublist st); [done | | done].
    rewrite points_updatePointMeta, ids_update. done.
  - (* removePoint *)
    apply (markers_ok_sublist st); [done | | done].
    cbn [removePoint setPoints emit points]. apply ids_filter_sublist.
  - (* onNewFile *)
    split; cbn; constructor.
  - (* onImageLoad *)
    apply (markers_ok_sublist st); done.
Qed.

Lemma run_markers_ok ops st : markers_ok st -> markers_ok (run ops st).
Proof using gen_fresh.
  revert st. induction ops as [|o ops IH]; intros st Hok; [done|].
  cbn [run fold_left]. apply IH. by apply step_markers_ok.
Qed.

(** C2.  Starting from the empty marker list, after any sequence of marker
    operations (manual add, preset add, a detection with its
    auto-population, an update from a drag or a form edit, snap, remove,
    new-file reset, image load) the identifiers of the marker list are
    pairwise distinct, provided [nanoid] never returns the same identifier
    twice. *)
Theorem marker_ids_unique (ops : list op) :
  NoDup (ids (points (run ops initial))).
Proof using gen_fresh.
  apply (run_markers_ok ops initial). split; cbn; constructor.
Qed.

End Fresh.

(* ================================================================= *)
(** ** Overlay constructs and missing landmarks *)

Lemma indicesToXY_from_mapM (pts : list xy) (indices : list nat)
    (landmarks : mesh) :
  indicesToXY_from pts indices landmarks
  = (fun ps => pts ++ ps)
      <$> mapM (fun i => xyOf <$> entry landmarks i) indices.
Proof.
  revert pts. induction indices as [|i indices IH]; intros pts.
  - cbn. by rewrite app_nil_r.
  - cbn [indicesToXY_from mapM]. destruct (entry landmarks i) as [lm|]; [|done].
    rewrite IH. cbn [fmap option_fmap option_map mbind option_bind].
    destruct (mapM _ indices) as [ps|]; [|done].
    cbn. by rewrite <- app_assoc.
Qed.

(** [indicesToXY] returns [null] exactly when the mesh is empty or one of
    the indices has no landmark. *)
Lemma indicesToXY_None (indices : list nat) (landmarks : mesh) :
  indicesToXY indices landmarks = None
  <-> landmarks = [] ∨ ∃ i, i ∈ indices ∧ entry landmarks i = None.
Proof.
  unfold indicesToXY. destruct landmarks as [|e0 lms].
  { split; [by left | done]. }
  rewrite indicesToXY_from_mapM.
  set (lms' := e0 :: lms).
  destruct (mapM (fun i => xyOf <$> entry lms' i) indices) as [ps|] eqn:HmapM.
  - split; [done|]. intros [? | (i & Hi & Habs)]; [done|].
    assert (is_Some (mapM (fun i => xyOf <$> entry lms' i) indices)) as Hs
      by (by rewrite HmapM).
    apply mapM_is_Some_1 in Hs. rewrite Forall_forall in Hs.
    specialize (Hs i Hi). cbn [compose] in Hs. rewrite Habs in Hs.
    by destruct Hs.
  - split; [|done]. intros _. right.
    apply mapM_None, Exists_exists in HmapM as (i & Hi & Hn).
    exists i. split; [done|]. by apply fmap_None in Hn.
Qed.

(** When it returns points, they are the landmarks of the indices, in
    order. *)
Lemma indicesToXY_Some (indices : list nat) (landmarks : mesh) (pts : list xy) :
  indicesToXY indices landmarks = Some pts ->
  Forall2 (fun i p => ∃ lm, entry landmarks i = Some lm ∧ p = xyOf lm)
    indices pts.
Proof.
  unfold indicesToXY. destruct landmarks as [|e0 lms]; [done|].
  rewrite indicesToXY_from_mapM.
  destruct (mapM _ indices) as [ps|] eqn:HmapM; [|done].
  intros [= <-]. apply mapM_Some in HmapM.
  eapply Forall2_impl; [exact HmapM|].
  intros i p Hp. cbn beta in Hp.
  destruct (entry (e0 :: lms) i) as [lm|]; [|done].
  exists lm. split; [done|]. by injection Hp as <-.
Qed.

Lemma elem_of_musclesToRender (landmarks : mesh) (s : muscleShape) :
  s ∈ musclesToRender landmarks
  <-> ∃ m, m ∈ muscleDefs ∧ muscleShapeOf landmarks m = Some s.
Proof. unfold musclesToRender. apply list_elem_of_omap. Qed.

Lemma elem_of_vesselShapes (landmarks : mesh) (s : vesselShape) :
  s ∈ vesselShapes landmarks
  <-> ∃ v, v ∈ vesselDefs ∧ vesselShapeOf landmarks v = Some s.
Proof. unfold vesselShapes. apply list_elem_of_omap. Qed.

Lemma muscleShapeOf_def (landmarks : mesh) m s :
  muscleShapeOf landmarks m = Some s -> ms_def s = m.
Proof.
  unfold muscleShapeOf. destruct (indicesToXY _ _); [|done]. by intros [= <-].
Qed.

Lemma vesselShapeOf_def (landmarks : mesh) v s :
  vesselShapeOf landmarks v = Some s -> vs_def s = v.
Proof.
  unfold vesselShapeOf. destruct (indicesToXY _ _); [|done]. by intros [= <-].
Qed.

Lemma midlineEndpoints_fallback (landmarks : mesh) :
  landmarks ≠ [] ->
  entry landmarks 10 = None ∨ entry landmarks 152 = None ->
  midlineEndpoints landmarks = Some (bboxMidline landmarks).
Proof.
  intros Hne Habs. unfold midlineEndpoints, bboxMidline.
  destruct landmarks as [|e0 lms]; [done|].
  destruct (bool_decide _); [|done].
  destruct Habs as [-> | ->]; [done|].
  by destruct (entry _ 10).
Qed.

Lemma midlineEndpoints_landmarks (landmarks : mesh) l10 l152 :
  entry landmarks 10 = Some l10 -> entry landmarks 152 = Some l152 ->
  midlineEndpoints landmarks
  = Some {| mid_a := {| jx := Num (lm0 l10); jy := Num (lm1 l10) |};
            mid_b := {| jx := Num (lm0 l152); jy := Num (lm1 l152) |} |}.
Proof.
  intros H10 H152. unfold midlineEndpoints. rewrite H10, H152.
  rewrite bool_decide_eq_true_2; [done|].
  unfold entry in H152. destruct (landmarks !! 152%nat) eqn:Hlk; [|done].
  by apply lookup_lt_Some in Hlk.
Qed.

(** C3, as the code has it.  For a muscle whose boundary, a vessel whose
    path, or the eye-line (landmarks [33] and [263]): when one of the
    indices has no landmark the construct is not in the list to render, so
    that nothing is drawn for it.  A muscle whose boundary is there but
    whose centerline misses a landmark is drawn, with its fibres sampled
    along the boundary.  The midline is drawn from the landmarks [10] and
    [152] when both are there; when one is missing and the mesh is not
    empty it is drawn all the same, as the vertical through the centre of
    the bounding box of the mesh.  The thirds read no landmark index: they
    are taken from the bounding box alone.  With an empty mesh nothing is
    drawn. *)
Theorem overlays_with_missing_landmarks (landmarks : mesh) :
  (∀ m, (∃ i, i ∈ m_boundary m ∧ entry landmarks i = None) ->
     muscleShapeOf landmarks m = None
     ∧ ∀ s, s ∈ musclesToRender landmarks -> ms_def s ≠ m)
  ∧ (∀ m s c, muscleShapeOf landmarks m = Some s ->
       m_centerline m = Some c ->
       (∃ i, i ∈ c ∧ entry landmarks i = None) ->
       ms_centerPts s = None
       ∧ drawMuscle s
         = (fun fs => [Line (Num <$> flattenPts (ms_boundaryPts s));
                       Line (Num <$> flattenPts (ms_boundaryPts s))]
                      ++ imap fibreStroke fs)
             <$> samplesAlong (ms_boundaryPts s) 12)
  ∧ (∀ v, (∃ i, i ∈ v_indices v ∧ entry landmarks i = None) ->
       vesselShapeOf landmarks v = None
       ∧ ∀ s, s ∈ vesselShapes landmarks -> vs_def s ≠ v)
  ∧ (entry landmarks 33 = None ∨ entry landmarks 263 = None ->
       eyeLine landmarks = None
       ∧ ∀ showEyeLine, drawEyeLine showEyeLine landmarks = [])
  ∧ (∀ l10 l152,
       entry landmarks 10 = Some l10 -> entry landmarks 152 = Some l152 ->
       midlineEndpoints landmarks
       = Some {| mid_a := {| jx := Num (lm0 l10); jy := Num (lm1 l10) |};
                 mid_b := {| jx := Num (lm0 l152); jy := Num (lm1 l152) |} |})
  ∧ (entry landmarks 10 = None ∨ entry landmarks 152 = None ->
       landmarks ≠ [] ->
       midlineEndpoints landmarks = Some (bboxMidline landmarks)
       ∧ drawMidline true landmarks ≠ [])
  ∧ (∀ landmarks' : mesh,
       landmarks ≠ [] -> landmarks' ≠ [] ->
       boundingBox landmarks' = boundingBox landmarks ->
       thirdsYs landmarks' = thirdsYs landmarks)
  ∧ (landmarks = [] ->
       musclesToRender landmarks = [] ∧ vesselShapes landmarks = []
       ∧ midlineEndpoints landmarks = None ∧ eyeLine landmarks = None
       ∧ thirdsYs landmarks = None).
Proof.
  split_and!.
  - intros m Hmiss.
    assert (muscleShapeOf landmarks m = None) as Hnone.
    { unfold muscleShapeOf.
      rewrite (proj2 (indicesToXY_None (m_boundary m) landmarks)); [done|].
      by right. }
    split; [done|]. intros s Hs Heq.
    apply elem_of_musclesToRender in Hs as (m' & _ & Hm').
    pose proof (muscleShapeOf_def _ _ _ Hm') as Hd. congruence.
  - intros m s c Hs Hc Hmiss.
    assert (ms_centerPts s = None) as Hcp.
    { unfold muscleShapeOf in Hs.
      destruct (indicesToXY (m_boundary m) landmarks); [|done].
      injection Hs as <-. cbn [ms_centerPts]. rewrite Hc.
      apply indicesToXY_None. by right. }
    split; [done|]. unfold drawMuscle. rewrite Hcp. cbn [default from_option].
    by destruct (samplesAlong _ _).
  - intros v Hmiss.
    assert (vesselShapeOf landmarks v = None) as Hnone.
    { unfold vesselShapeOf.
      rewrite (proj2 (indicesToXY_None (v_indices v) landmarks)); [done|].
      by right. }
    split; [done|]. intros s Hs Heq.
    apply elem_of_vesselShapes in Hs as (v' & _ & Hv').
    pose proof (vesselShapeOf_def _ _ _ Hv') as Hd. congruence.
  - intros Habs.
    assert (eyeLine landmarks = None) as Hnone.
    { unfold eyeLine. destruct (bool_decide _); [|done].
      destruct Habs as [-> | ->]; [done|]. by destruct (entry _ 33). }
    split; [done|]. intros showEyeLine. unfold drawEyeLine.
    rewrite Hnone. by destruct showEyeLine.
  - apply midlineEndpoints_landmarks.
  - intros Habs Hne.
    pose proof (midlineEndpoints_fallback landmarks Hne Habs) as Hmid.
    split; [done|]. unfold drawMidline. by rewrite Hmid.
  - intros landmarks' Hne Hne' Hb. unfold thirdsYs.
    destruct landmarks, landmarks'; try done. by rewrite Hb.
  - intros ->. by split_and!.
Qed.

(* ================================================================= *)
(** ** setup *)

Lemma events_since_app st st' evs :
  trace st' = trace st ++ evs -> events_since st st' = evs.
Proof. intros H. unfold events_since. by rewrite H, drop_app_length. Qed.

(** The events of [setup], path by path. *)
Lemma setup_trace (e : setup_env) (st : state) :
  ∃ evs, trace (setup e st) = trace st ++ evs
    ∧ landmarks (setup e st) = landmarks st
    ∧ points (setup e st) = points st
    ∧ nonce (setup e st) = nonce st
    ∧ match tf_setBackend e, tf_ready e with
      | Throws, _ =>
          evs = [EAwait TfSetBackend; EConsole Error "Detector setup error:"]
          ∧ detector (setup e st) = detector st
      | Returns _, Throws =>
          evs = [EAwait TfSetBackend; EAwait TfReady;
                 EConsole Error "Detector setup error:"]
          ∧ detector (setup e st) = detector st
      | Returns _, Returns _ =>
          let legacy :=
            [EConsole Warn "createDetector failed; trying legacy load():";
             EAwait LegacyLoad]
            ++ match legacy_load e with
               | Returns d =>
                   if mounted_after e LegacyLoad then [ESetDetector d] else []
               | Throws =>
                   [EConsole Error
                      "Both createDetector and legacy load() failed:";
                    EConsole Error "Detector setup error:"]
               end in
          let legacy_detector :=
            match legacy_load e with
            | Returns d =>
                if mounted_after e LegacyLoad then Some d else detector st
            | Throws => detector st
            end in
          let start := [EAwait TfSetBackend; EAwait TfReady;
                        EAwait CreateDetector] in
          match createDetector e with
          | Throws =>
              evs = start ++ legacy
              ∧ detector (setup e st) = legacy_detector
          | Returns d =>
              if mounted_after e CreateDetector
              then evs = start ++ [ESetDetector d]
                   ∧ detector (setup e st) = Some d
              else match det_dispose d with
                   | None => evs = start ∧ detector (setup e st) = detector st
                   | Some (Returns _) =>
                       evs = start ++ [EDispose]
                       ∧ detector (setup e st) = detector st
                   | Some Throws =>
                       evs = start ++ [EDispose] ++ legacy
                       ∧ detector (setup e st) = legacy_detector
                   end
          end
      end.
Proof.
  unfold setup, setup_legacy.
  destruct (tf_setBackend e) as [[]|], (tf_ready e) as [[]|];
    try destruct (createDetector e) as [d|];
    try destruct (mounted_after e CreateDetector);
    try destruct (det_dispose d) as [[[]|]|];
    try destruct (legacy_load e) as [d'|];
    try destruct (mounted_after e LegacyLoad);
    (eexists; split;
     [cbn; rewrite <- ?app_assoc; reflexivity
     |split_and!; reflexivity]).
Qed.

(** Case analysis on membership in a list that is written out. *)
Ltac mem_hyps :=
  repeat match goal with
         | H : _ ∈ _ :: _ |- _ =>
             apply elem_of_cons in H as [H | H]; [try discriminate H |]
         | H : _ ∈ [] |- _ => by apply elem_of_nil in H
         | H : _ ∧ _ |- _ => destruct H
         | H : _ ∨ _ |- _ => destruct H
         end.



(* ================================================================= *)
(** ** detectOnce *)

Lemma markersAt_cons lm lms k :
  markersAt (lm :: lms) k
  = {| pt_id := gen k; pt_x := lm0 lm; pt_y := lm1 lm;
       pt_product := Some EmptyString; pt_dose := Some EmptyString |}
    :: markersAt lms (S k).
Proof.
  unfold markersAt. cbn [imap]. rewrite Nat.add_0_r. f_equal.
  apply imap_ext. intros j lm' _. cbn. do 2 f_equal. lia.
Qed.

(** The default points are the markers at the landmarks that are there,
    in the order of the indices. *)
Lemma defaultPoints_markersAt (indices : list nat) (m : mesh) (st : state) :
  fst (defaultPoints indices m st) = markersAt (presentAt indices m) (nonce st).
Proof.
  revert st. induction indices as [|i indices IH]; intros st; [done|].
  cbn [defaultPoints presentAt omap list_omap].
  destruct (entry m i) as [p|]; [|apply IH].
  cbn [fst snd]. fold (presentAt indices m). by rewrite markersAt_cons, IH.
Qed.

Lemma length_presentAt (indices : list nat) (m : mesh) :
  (length (presentAt indices m) ≤ length indices)%nat.
Proof.
  induction indices as [|i indices IH]; [done|].
  cbn [presentAt omap list_omap]. fold (presentAt indices m).
  destruct (entry m i); cbn [length]; lia.
Qed.

(** The events and the effect of [detectOnce], path by path. *)
Lemma detectOnce_trace (seen : list AnnotationPoint) (e : detect_env)
    (st : state) :
  let st' := detectOnce seen e st in
  ∃ evs, trace st' = trace st ++ evs
    ∧ detector st' = detector st
    ∧ if negb (canvas_ok e)
      then evs = [EConsole Error "detectOnce error:"]
           ∧ landmarks st' = landmarks st ∧ points st' = points st
      else
        let pre := awaits (snd (estimateCascade e)) in
        match fst (fst (estimateCascade e)) with
        | None =>
            evs = pre ++ [EConsole Error "All estimateFaces attempts failed:";
                          EConsole Error "detectOnce error:"]
            ∧ landmarks st' = landmarks st ∧ points st' = points st
        | Some preds =>
            if snd (fst (estimateCascade e))
            then evs = pre ++ [EReadCancelled true]
                 ∧ landmarks st' = landmarks st ∧ points st' = points st
            else
              match preds with
              | [] =>
                  evs = pre ++ [EReadCancelled false; ESetLandmarks]
                  ∧ landmarks st' = [] ∧ points st' = points st
              | f :: _ =>
                  match extractMesh f with
                  | Throws =>
                      evs = pre ++ [EReadCancelled false;
                                    EConsole Error "detectOnce error:"]
                      ∧ landmarks st' = landmarks st
                      ∧ points st' = points st
                  | Returns (m, warned) =>
                      let warning :=
                        if warned : bool
                        then [EConsole Warn "Unknown prediction shape"]
                        else [] in
                      landmarks st' = m
                      ∧ if bool_decide (seen = []) && bool_decide (m ≠ [])
                        then evs = pre ++ [EReadCancelled false] ++ warning
                                   ++ [ESetLandmarks; ESetPoints]
                             ∧ points st'
                               = markersAt (presentAt lipsIndices m) (nonce st)
                        else evs = pre ++ [EReadCancelled false] ++ warning
                                   ++ [ESetLandmarks]
                             ∧ points st' = points st
                  end
              end
        end.
Proof.
  cbn zeta. unfold detectOnce, detect_catch.
  destruct (canvas_ok e); cbn [negb].
  2:{ eexists. split; [reflexivity|]. by split_and!. }
  destruct (estimateCascade e) as [[predictions cancelled] calls].
  cbn [fst snd]. fold (awaits calls).
  destruct predictions as [preds|].
  2:{ eexists. split.
      - cbn. rewrite trace_emits, <- !app_assoc. reflexivity.
      - cbn. rewrite detector_emits, landmarks_emits, points_emits.
        by split_and!. }
  destruct cancelled.
  { eexists. split.
    - cbn. rewrite trace_emits, <- !app_assoc. reflexivity.
    - cbn. rewrite detector_emits, landmarks_emits, points_emits.
      by split_and!. }
  destruct preds as [|f preds].
  { eexists. split.
    - cbn. rewrite trace_emits, <- !app_assoc. reflexivity.
    - cbn. rewrite detector_emits, points_emits. by split_and!. }
  destruct (extractMesh f) as [[m warned]|].
  2:{ eexists. split.
      - cbn. rewrite trace_emits, <- !app_assoc. reflexivity.
      - cbn. rewrite detector_emits, landmarks_emits, points_emits.
        by split_and!. }
  assert (bool_decide (length seen = 0%nat) = bool_decide (seen = [])) as ->.
  { apply bool_decide_ext, length_zero_iff_nil. }
  assert (bool_decide (0 < length m)%nat = bool_decide (m ≠ [])) as ->.
  { apply bool_decide_ext. destruct m; cbn; split; (done || lia). }
  destruct (bool_decide (seen = []) && bool_decide (m ≠ [])).
  - rewrite defaultPoints_markersAt.
    match goal with
    | |- context [defaultPoints lipsIndices m ?s] =>
        destruct (defaultPoints_batch lipsIndices m s)
          as (_ & _ & _ & Hlm & _ & Htr & Hdet)
    end.
    destruct warned; (eexists; split;
      [ cbn [setPoints emit trace]; rewrite Htr; cbn;
        rewrite trace_emits, <- !app_assoc; reflexivity
      | cbn [setPoints emit detector landmarks points]; rewrite Hdet, Hlm;
        cbn; rewrite ?detector_emits, ?nonce_emits; by split_and! ]).
  - destruct warned; (eexists; split;
      [ cbn; rewrite trace_emits, <- !app_assoc; reflexivity
      | cbn; rewrite ?detector_emits, ?points_emits; by split_and! ]).
Qed.

(* ================================================================= *)
(** ** Failures *)

Lemma awaits_silent (calls : list shape) : Forall silent (awaits calls).
Proof. unfold awaits. apply Forall_fmap, Forall_forall. by intros s _. Qed.

Lemma estimateCascade_all_throw (e : detect_env) :
  (∀ s, estimateFaces e s = Throws) -> fst (fst (estimateCascade e)) = None.
Proof. intros H. unfold estimateCascade. by rewrite !H. Qed.

(** C1.  When model loading or detection fails (the backend or both
    loaders throw; the canvas, every call shape of [estimateFaces], or the
    reading of the prediction throws), the routine changes neither the
    landmarks nor the marker list nor the detector: they are exactly what
    they were before.  It calls no state setter and writes the error to the
    console. *)
Theorem failure_only_logged (r : routine) (st : state) :
  fails r -> only_logged st (exec r st).
Proof.
  intros Hf. unfold only_logged.
  destruct r as [e | seen e]; cbn [fails exec] in *.
  - destruct (setup_trace e st) as (evs & Htr & Hl & Hp & _ & Hcase).
    rewrite (events_since_app _ _ _ Htr), Hl, Hp.
    assert (∀ evs' : list event, evs = evs' ->
              detector (setup e st) = detector st ->
              Forall silent evs' ->
              EConsole Error "Detector setup error:" ∈ evs' ->
              landmarks st = landmarks st ∧ points st = points st
              ∧ detector (setup e st) = detector st
              ∧ Forall silent evs ∧ ∃ msg, EConsole Error msg ∈ evs) as Hdone.
    { intros evs' -> ? ? ?. split_and!; try done. by eexists. }
    unfold setup_fails in Hf.
    destruct (tf_setBackend e) as [[]|].
    2:{ destruct Hcase as [Hevs Hdet]. eapply Hdone; [done | done | |].
        - by repeat constructor.
        - by repeat constructor. }
    destruct (tf_ready e) as [[]|].
    2:{ destruct Hcase as [Hevs Hdet]. eapply Hdone; [done | done | |].
        - by repeat constructor.
        - by repeat constructor. }
    destruct Hf as [? | [? | [Hload Hwhy]]]; [discriminate..|].
    cbn zeta in Hcase. rewrite Hload in Hcase.
    destruct Hwhy as [Hcreate | (d & Hcreate & Hm & Hdisp)];
      rewrite Hcreate, ?Hm, ?Hdisp in Hcase;
      destruct Hcase as [Hevs Hdet];
      (eapply Hdone; [done | done | by repeat constructor | by repeat constructor]).
  - destruct (detectOnce_trace seen e st) as (evs & Htr & Hdet & Hcase).
    rewrite (events_since_app _ _ _ Htr), Hdet.
    assert (canvas_ok e = false
            ∨ fst (fst (estimateCascade e)) = None
            ∨ ∃ f preds, fst (fst (estimateCascade e)) = Some (f :: preds)
                ∧ snd (fst (estimateCascade e)) = false
                ∧ extractMesh f = Throws) as Hf'.
    { destruct Hf as [H | [H | [H | H]]]; auto.
      right; left. by apply estimateCascade_all_throw. }
    clear Hf.
    destruct (canvas_ok e); cbn [negb] in Hcase.
    2:{ destruct Hcase as (-> & -> & ->). split_and!; try done.
        - by repeat constructor.
        - exists "detectOnce error:"%string. by repeat constructor. }
    cbn zeta in Hcase.
    destruct Hf' as [? | [Hnone | (f & preds & Hsome & Hgo & Hthrow)]]; [done| |].
    + rewrite Hnone in Hcase. destruct Hcase as (-> & -> & ->).
      split_and!; try done.
      * apply Forall_app. split; [apply awaits_silent | by repeat constructor].
      * exists "detectOnce error:"%string.
        apply elem_of_app. right. by repeat constructor.
    + rewrite Hsome, Hgo, Hthrow in Hcase. destruct Hcase as (-> & -> & ->).
      split_and!; try done.
      * apply Forall_app. split; [apply awaits_silent | by repeat constructor].
      * exists "detectOnce error:"%string.
        apply elem_of_app. right. by repeat constructor.
Qed.

(* ================================================================= *)
(** ** Cancellation of detectOnce *)

(** The flag that [detectOnce] reads is set exactly when the cleanup ran
    while one of the calls it awaited was pending. *)
Lemma estimateCascade_cancelled (e : detect_env) :
  snd (fst (estimateCascade e)) = true
  <-> ∃ s, s ∈ snd (estimateCascade e) ∧ cancel_during e s = true.
Proof.
  unfold estimateCascade.
  destruct (estimateFaces e Plain); [|destruct (estimateFaces e InputObject);
    [|destruct (estimateFaces e WithConfig)]];
    cbn [fst snd];
    destruct (cancel_during e Plain) eqn:H1,
             (cancel_during e InputObject) eqn:H2,
             (cancel_during e WithConfig) eqn:H3; cbn [orb];
    (split;
     [ intros ?; try discriminate;
       first [ (exists Plain; split; [by repeat constructor | done])
             | (exists InputObject; split; [by repeat constructor | done])
             | (exists WithConfig; split; [by repeat constructor | done]) ]
     | intros (s & Hs & Hc); try done; mem_hyps; congruence ]).
Qed.

Lemma elem_of_awaits (s : shape) (calls : list shape) :
  EAwait (EstimateFaces s) ∈ awaits calls <-> s ∈ calls.
Proof.
  unfold awaits. rewrite list_elem_of_fmap. split.
  - intros (s' & [= ->] & Hs). done.
  - intros Hs. by exists s.
Qed.

Lemma estimateCascade_calls (e : detect_env) :
  snd (estimateCascade e) `prefix_of` [Plain; InputObject; WithConfig].
Proof.
  unfold estimateCascade.
  destruct (estimateFaces e Plain); [|destruct (estimateFaces e InputObject);
    [|destruct (estimateFaces e WithConfig)]]; cbn [snd]; by eexists.
Qed.

(** A property of each event of a list that is written out. *)
Ltac each_event :=
  repeat (apply List.Forall_cons; [first [exact I | by intros [] | done] |]);
  apply List.Forall_nil.

(** The shape of a tail of events that is written out. *)
Ltac tail_ok :=
  cbn [app];
  split_and?;
  lazymatch goal with
  | |- _ `prefix_of` _ => first [eassumption | by eexists]
  | |- Forall _ _ => each_event
  | |- _ = _ -> _ => first [done | by intros [=]]
  | |- _ = _ => done
  end.

(** C5, as the code has it.  The events of a run of [detectOnce] are the
    awaited [estimateFaces] calls, one after the other with nothing in
    between, and then a tail without awaited call.  The flag [cancelled] is
    read at most once, at the head of the tail: after the last awaited call,
    not after each.  A setter is called only after the flag was read as
    [false], and nothing follows a read of [true].  So, when the cleanup
    runs while one of the awaited calls is pending, the run leaves landmarks
    and markers as they were and calls no setter. *)
Theorem cancellation_read_once (seen : list AnnotationPoint) (e : detect_env)
    (st : state) :
  let st' := detectOnce seen e st in
  let evs := events_since st st' in
  (∃ calls tail,
     evs = awaits calls ++ tail
     ∧ calls `prefix_of` [Plain; InputObject; WithConfig]
     ∧ Forall (fun ev => ¬ is_await ev) tail
     ∧ match tail with
       | EReadCancelled v :: rest =>
           Forall (fun ev => ¬ is_read ev) rest ∧ (v = true -> rest = [])
       | _ => Forall silent tail ∧ Forall (fun ev => ¬ is_read ev) tail
       end)
  ∧ ((∃ s, EAwait (EstimateFaces s) ∈ evs ∧ cancel_during e s = true) ->
     landmarks st' = landmarks st
     ∧ points st' = points st
     ∧ Forall silent evs).
Proof.
  cbn zeta.
  destruct (detectOnce_trace seen e st) as (evs & Htr & Hdet & Hcase).
  rewrite (events_since_app _ _ _ Htr).
  destruct (canvas_ok e); cbn [negb] in Hcase.
  2:{ destruct Hcase as (-> & Hl & Hp). split.
      - exists [], [EConsole Error "detectOnce error:"].
        tail_ok.
      - intros (s & Hs & _). mem_hyps. }
  cbn zeta in Hcase.
  pose proof (estimateCascade_calls e) as Hcalls.
  pose proof (estimateCascade_cancelled e) as Hflag.
  assert (∀ tail,
            evs = awaits (snd (estimateCascade e)) ++ tail ->
            Forall (fun ev => ¬ is_await ev) tail ->
            (∃ s, EAwait (EstimateFaces s) ∈ evs ∧ cancel_during e s = true) ->
            snd (fst (estimateCascade e)) = true) as Hset.
  { intros tail -> Htail (s & Hs & Hc). apply Hflag. exists s. split; [|done].
    apply elem_of_app in Hs as [Hs | Hs]; [by apply elem_of_awaits|].
    rewrite Forall_forall in Htail. by destruct (Htail _ Hs). }
  destruct (fst (fst (estimateCascade e))) as [preds|].
  2:{ destruct Hcase as (Hevs & Hl & Hp). split.
      - eexists _, _. split; [exact Hevs|].
        tail_ok.
      - intros _. split_and!; [done..|]. rewrite Hevs. apply Forall_app.
        split; [apply awaits_silent | each_event]. }
  destruct (snd (fst (estimateCascade e))) eqn:Hc.
  { destruct Hcase as (Hevs & Hl & Hp). split.
    - eexists _, _. split; [exact Hevs|].
      tail_ok.
    - intros _. split_and!; [done..|]. rewrite Hevs. apply Forall_app.
      split; [apply awaits_silent | each_event]. }
  assert (∀ tail,
            evs = awaits (snd (estimateCascade e)) ++ tail ->
            Forall (fun ev => ¬ is_await ev) tail ->
            ¬ ∃ s, EAwait (EstimateFaces s) ∈ evs ∧ cancel_during e s = true)
    as Hnot.
  { intros tail Hevs Htail Hex. by specialize (Hset tail Hevs Htail Hex). }
  destruct preds as [|f preds].
  { destruct Hcase as (Hevs & Hl & Hp). split.
    - eexists _, _. split; [exact Hevs|].
      tail_ok.
    - intros Hex. destruct (Hnot _ Hevs); [|done].
      each_event. }
  destruct (extractMesh f) as [[m warned]|].
  2:{ destruct Hcase as (Hevs & Hl & Hp). split.
      - eexists _, _. split; [exact Hevs|].
        tail_ok.
      - intros Hex. destruct (Hnot _ Hevs); [|done].
        each_event. }
  cbn zeta in Hcase. destruct Hcase as (Hl & Hcase).
  destruct (bool_decide (seen = []) && bool_decide (m ≠ [])), warned;
    destruct Hcase as (Hevs & Hp); cbn [app] in Hevs;
    (split;
     [ eexists _, _; split; [exact Hevs|];
       tail_ok
     | intros Hex; destruct (Hnot _ Hevs); [|done];
       each_event ]).
Qed.

(* ================================================================= *)
(** ** First-detection auto-population *)

(** The rule of [detectOnce] for the default markers.  It is stated on
    [seen], the marker list of the render in which the effect was created:
    that list, and not the marker list of the moment, decides. *)
Lemma detectOnce_default_markers (seen : list AnnotationPoint)
    (e : detect_env) (st : state) f preds (m : mesh) warned :
  canvas_ok e = true ->
  fst (fst (estimateCascade e)) = Some (f :: preds) ->
  snd (fst (estimateCascade e)) = false ->
  extractMesh f = Returns (m, warned) ->
  m ≠ [] ->
  let st' := detectOnce seen e st in
  landmarks st' = m
  ∧ (seen = [] ->
       points st' = markersAt (presentAt lipsIndices m) (nonce st))
  ∧ (seen ≠ [] -> points st' = points st)
  ∧ (length (presentAt lipsIndices m) ≤ 4)%nat.
Proof.
  intros Hcanvas Hpreds Hgo Hmesh Hm. cbn zeta.
  destruct (detectOnce_trace seen e st) as (evs & _ & _ & Hcase).
  rewrite Hcanvas in Hcase. cbn [negb] in Hcase. cbn zeta in Hcase.
  rewrite Hpreds, Hgo, Hmesh in Hcase. destruct Hcase as [Hl Hcase].
  split_and!; [done | | | apply (length_presentAt lipsIndices m)].
  - intros ->. rewrite bool_decide_eq_true_2 in Hcase by done.
    rewrite bool_decide_eq_true_2 in Hcase by done. by destruct Hcase.
  - intros Hseen. rewrite (bool_decide_eq_false_2 (seen = [])) in Hcase by done.
    by destruct Hcase.
Qed.

(* ================================================================= *)
(** ** The bounding box is finite or untouched *)

Lemma bbox_step_settled (b : bbox) (e : option Landmark) :
  bbox_settled b -> bbox_settled (bbox_step b e).
Proof.
  intros Hb. destruct e as [lm|]; [|done]. right.
  destruct Hb as [-> | (H1 & H2 & H3 & H4)]; cbn [bbox_step minX maxX minY maxY].
  - by cbn.
  - split_and!; by case_match.
Qed.

Lemma boundingBox_settled (landmarks : mesh) :
  bbox_settled (boundingBox landmarks).
Proof.
  unfold boundingBox.
  assert (bbox_settled bbox_start) as H by (by left).
  revert H. generalize bbox_start.
  induction landmarks as [|e lms IH]; intros b Hb; [done|].
  cbn [fold_left]. by apply IH, bbox_step_settled.
Qed.

(** Where [addPreset] places a marker from the midline and the thirds,
    the numbers it adds up are finite: [finite_part] returns them as they
    are. *)
Lemma preset_fallback_finite (landmarks : mesh) (m : midline) (t : thirds) :
  midlineEndpoints landmarks = Some m ->
  thirdsYs landmarks = Some t ->
  isFinite (js_div (js_add (jx (mid_a m)) (jx (mid_b m))) 2)
  ∧ isFinite (y1 t) ∧ isFinite (y2 t).
Proof.
  intros Hm Ht. unfold thirdsYs in Ht.
  destruct landmarks as [|e0 lms] eqn:Hlms; [done|]. rewrite <- Hlms in *.
  assert (landmarks ≠ []) as Hne by (by rewrite Hlms).
  clear Hlms.
  pose proof (boundingBox_settled landmarks) as Hb.
  destruct (negb _ || _) eqn:Hh in Ht; [done|]. injection Ht as <-.
  apply orb_false_elim in Hh as [Hfin _]. apply negb_false_iff in Hfin.
  destruct Hb as [Hb | (H1 & H2 & H3 & H4)].
  { rewrite Hb in Hfin. done. }
  cbn [y1 y2].
  destruct (minX (boundingBox landmarks)) eqn:E1; try done.
  destruct (maxX (boundingBox landmarks)) eqn:E2; try done.
  destruct (minY (boundingBox landmarks)) eqn:E3; try done.
  destruct (maxY (boundingBox landmarks)) eqn:E4; try done.
  split; [|done].
  unfold midlineEndpoints in Hm.
  destruct (bool_decide _), (entry landmarks 10), (entry landmarks 152);
    destruct landmarks; try done; injection Hm as <-;
    cbn [mid_a mid_b jx]; by rewrite ?E1, ?E2.
Qed.

(* ================================================================= *)
(** ** The bounding box and the thirds *)

Lemma entry_Some (l : mesh) (i : nat) (lm : Landmark) :
  entry l i = Some lm <-> l !! i = Some (Some lm).
Proof.
  unfold entry. destruct (l !! i) as [[lm'|]|]; cbn; split; congruence.
Qed.

Lemma entry_snoc (seen : mesh) (e : option Landmark) (i : nat) (lm : Landmark) :
  entry (seen ++ [e]) i = Some lm
  <-> entry seen i = Some lm ∨ (i = length seen ∧ e = Some lm).
Proof.
  rewrite !entry_Some. split.
  - intros Hi. apply lookup_app_Some in Hi as [Hi | [Hge Hi]]; [by left|].
    right. apply list_lookup_singleton_Some in Hi as [Hz He].
    split; [lia | done].
  - intros [Hi | [-> ->]].
    + by apply lookup_app_l_Some.
    + by rewrite lookup_app_r, Nat.sub_diag.
Qed.

Lemma js_lt_Num (p q : Q) : js_lt (Num p) (Num q) = true <-> p < q.
Proof. cbn. destruct (Qlt_le_dec p q); split; (done || lra). Qed.

Lemma bbox_step_of (seen : mesh) (e : option Landmark) (b : bbox) :
  bbox_of seen b -> bbox_of (seen ++ [e]) (bbox_step b e).
Proof.
  intros Hb. destruct e as [lm|].
  2:{ cbn [bbox_step].
      destruct Hb as [[Hnone ->] | (x0 & x1 & y0 & y1 & -> & Hin & Hx0 & Hx1 & Hy0 & Hy1)].
      - left. split; [|done]. intros i.
        destruct (entry (seen ++ [None]) i) as [lm|] eqn:Hi; [|done].
        apply entry_snoc in Hi as [Hi | [_ ?]]; [|done]. by rewrite Hnone in Hi.
      - right. exists x0, x1, y0, y1. split_and!; [done | | | | | ].
        + intros i lm Hi. apply entry_snoc in Hi as [Hi | [_ ?]]; [|done].
          by apply (Hin i).
        + destruct Hx0 as (i & lm & Hi & ?). exists i, lm. split; [|done].
          apply entry_snoc. by left.
        + destruct Hx1 as (i & lm & Hi & ?). exists i, lm. split; [|done].
          apply entry_snoc. by left.
        + destruct Hy0 as (i & lm & Hi & ?). exists i, lm. split; [|done].
          apply entry_snoc. by left.
        + destruct Hy1 as (i & lm & Hi & ?). exists i, lm. split; [|done].
          apply entry_snoc. by left. }
  right.
  assert (entry (seen ++ [Some lm]) (length seen) = Some lm) as Hnew.
  { apply entry_snoc. by right. }
  destruct Hb as [[Hnone ->] | (x0 & x1 & y0 & y1 & -> & Hin & Hx0 & Hx1 & Hy0 & Hy1)].
  - exists (lm0 lm), (lm0 lm), (lm1 lm), (lm1 lm). split_and!; [done | | | | | ].
    + intros i lm' Hi. apply entry_snoc in Hi as [Hi | [_ [= <-]]].
      * by rewrite Hnone in Hi.
      * split_and!; apply Qle_refl.
    + by exists (length seen), lm.
    + by exists (length seen), lm.
    + by exists (length seen), lm.
    + by exists (length seen), lm.
  - cbn [bbox_step minX maxX minY maxY].
    assert (∀ (P : Landmark -> Q) (c : Q),
              (∃ i lm', entry seen i = Some lm' ∧ P lm' = c) ->
              ∃ i lm', entry (seen ++ [Some lm]) i = Some lm' ∧ P lm' = c)
      as Hold.
    { intros P c (i & lm' & Hi & Hc). exists i, lm'. split; [|done].
      apply entry_snoc. by left. }
    destruct (js_lt (Num (lm0 lm)) (Num x0)) eqn:E1,
             (js_lt (Num x1) (Num (lm0 lm))) eqn:E2,
             (js_lt (Num (lm1 lm)) (Num y0)) eqn:E3,
             (js_lt (Num y1) (Num (lm1 lm))) eqn:E4;
      repeat match goal with
             | H : js_lt (Num _) (Num _) = true |- _ => apply js_lt_Num in H
             | H : js_lt (Num ?p) (Num ?q) = false |- _ =>
                 assert (¬ p < q) by (intros ?%js_lt_Num; congruence);
                 clear H
             end;
      (eexists _, _, _, _; split_and!;
       [ reflexivity
       | intros i lm' Hi; apply entry_snoc in Hi as [Hi | [_ [= <-]]];
         [ destruct (Hin i lm' Hi) as (? & ? & ? & ?); split_and!; lra
         | split_and!; lra ]
       | first [by exists (length seen), lm | by apply Hold]
       | first [by exists (length seen), lm | by apply Hold]
       | first [by exists (length seen), lm | by apply Hold]
       | first [by exists (length seen), lm | by apply Hold] ]).
Qed.

Lemma boundingBox_of (landmarks : mesh) :
  bbox_of landmarks (boundingBox landmarks).
Proof.
  unfold boundingBox.
  assert (bbox_of [] bbox_start) as H0.
  { left. split; [|done]. intros i. unfold entry. by rewrite lookup_nil. }
  assert (∀ (rest seen : mesh) b,
            bbox_of seen b ->
            bbox_of (seen ++ rest) (fold_left bbox_step rest b)) as Hgen.
  { induction rest as [|e rest IH]; intros seen b Hb.
    - by rewrite app_nil_r.
    - cbn [fold_left].
      replace (seen ++ e :: rest) with ((seen ++ [e]) ++ rest)
        by (by rewrite <- app_assoc).
      apply IH. by apply bbox_step_of. }
  apply (Hgen landmarks [] bbox_start H0).
Qed.

(** X1.  The bounding box that the midline and the thirds are taken from.
    With no landmark in the mesh (an empty mesh, or holes only) the four
    bounds stay at their sentinels.  With at least one, they are finite,
    every landmark lies between them, and each bound is the coordinate of
    one of the landmarks. *)
Theorem boundingBox_encloses (landmarks : mesh) :
  let b := boundingBox landmarks in
  ((∀ i, entry landmarks i = None) -> b = bbox_start)
  ∧ ((∃ i, is_Some (entry landmarks i)) ->
     ∃ x0 x1 y0 y1,
       b = {| minX := Num x0; maxX := Num x1;
              minY := Num y0; maxY := Num y1 |}
       ∧ (∀ i lm, entry landmarks i = Some lm ->
            x0 <= lm0 lm ∧ lm0 lm <= x1 ∧ y0 <= lm1 lm ∧ lm1 lm <= y1)
       ∧ (∃ i lm, entry landmarks i = Some lm ∧ lm0 lm = x0)
       ∧ (∃ i lm, entry landmarks i = Some lm ∧ lm0 lm = x1)
       ∧ (∃ i lm, entry landmarks i = Some lm ∧ lm1 lm = y0)
       ∧ (∃ i lm, entry landmarks i = Some lm ∧ lm1 lm = y1)).
Proof.
  cbn zeta. pose proof (boundingBox_of landmarks) as Hb. split.
  - intros Hnone.
    destruct Hb as [[_ ->] | (x0 & x1 & y0 & y1 & _ & _ & (i & lm & Hi & _) & _)];
      [done|]. by rewrite Hnone in Hi.
  - intros (i & Hi).
    destruct Hb as [[Hnone _] | Hb]; [|done].
    rewrite Hnone in Hi. by destruct Hi.
Qed.

(** X2.  The thirds.  [thirdsYs] is null exactly when no two landmarks of
    the mesh differ in [y] (in particular without landmarks).  Otherwise
    its two lines cut the height of the bounding box into three equal
    parts, top to bottom, and span the width of the box. *)
Theorem thirdsYs_cut_in_three (landmarks : mesh) :
  (thirdsYs landmarks = None
   <-> ∀ i j a b, entry landmarks i = Some a -> entry landmarks j = Some b ->
         lm1 a == lm1 b)
  ∧ (∀ t, thirdsYs landmarks = Some t ->
       ∃ xa xb ya yb u1 u2,
         boundingBox landmarks
         = {| minX := Num xa; maxX := Num xb; minY := Num ya; maxY := Num yb |}
         ∧ t = {| y1 := Num u1; y2 := Num u2; xmin := Num xa; xmax := Num xb |}
         ∧ ya < u1 ∧ u1 < u2 ∧ u2 < yb
         ∧ u1 - ya == u2 - u1 ∧ u2 - u1 == yb - u2).
Proof.
  pose proof (boundingBox_of landmarks) as Hb. unfold thirdsYs.
  destruct landmarks as [|e0 lms] eqn:Hlms.
  { split; [|done]. split; [|done]. intros _ i j a b Hi.
    unfold entry in Hi. by rewrite lookup_nil in Hi. }
  rewrite <- Hlms in *. clear Hlms e0 lms.
  destruct Hb as [[Hnone ->] | (x0 & x1 & y0 & y1 & -> & Hin & _ & _ & Hy0 & Hy1)].
  { cbn. split; [|done]. split; [|done]. intros _ i j a b Hi.
    by rewrite Hnone in Hi. }
  cbn [minX maxX minY maxY js_sub js_neg js_add isFinite negb orb js_le].
  destruct (Qle_bool (y1 + - y0) 0) eqn:Hh.
  - apply Qle_bool_iff in Hh. split; [|done]. split; [|done].
    intros _ i j a b Hi Hj.
    destruct (Hin i a Hi) as (_ & _ & ? & ?).
    destruct (Hin j b Hj) as (_ & _ & ? & ?). apply Qle_antisym; lra.
  - assert (y0 < y1) as Hlt.
    { destruct (Qlt_le_dec y0 y1) as [?|Hge]; [done|].
      assert (Qle_bool (y1 + - y0) 0 = true) as Ht
        by (apply Qle_bool_iff; lra). congruence. }
    split.
    + split; [done|]. intros Hsame. exfalso.
      destruct Hy0 as (i & a & Hi & Ha), Hy1 as (j & b & Hj & Hb).
      specialize (Hsame i j a b Hi Hj). rewrite Ha, Hb in Hsame. lra.
    + intros t [= <-]. cbn [js_div js_scale js_add].
      eexists x0, x1, y0, y1, _, _. split_and!; [done | reflexivity | | | | | ].
      * assert (0 < (y1 + - y0) / 3) by (apply Qlt_shift_div_l; lra). lra.
      * assert ((y1 + - y0) / 3 < 2 * (y1 + - y0) / 3).
        { apply Qlt_shift_div_l; [lra|].
          assert ((y1 + - y0) / 3 * 3 == y1 + - y0) as -> by (field). lra. }
        lra.
      * assert (2 * (y1 + - y0) / 3 < y1 - y0).
        { apply Qlt_shift_div_r; lra. }
        lra.
      * field.
      * field.
Qed.

(* ================================================================= *)
(** ** perpDistanceToLine, sideLabel, pointOffsets *)

Lemma square_nonneg (x : Q) : 0 <= x * x.
Proof. clear hypot gen. nra. Qed.

Lemma square_sum_zero (x y : Q) : x * x + y * y == 0 <-> x == 0 ∧ y == 0.
Proof.
  split.
  - intros H.
    pose proof (square_nonneg x). pose proof (square_nonneg y).
    assert (x * x == 0) as Hx by lra. assert (y * y == 0) as Hy by lra.
    apply Qmult_integral in Hx, Hy. split; [by destruct Hx | by destruct Hy].
  - intros [-> ->]. reflexivity.
Qed.

(** [perpDistanceToLine] on finite points, computed. *)
Lemma perpDistanceToLine_finite (p a b : xy) :
  perpDistanceToLine (jsOf p) (jsOf a) (jsOf b)
  = let vx := px b + - px a in
    let vy := py b + - py a in
    let wx := px p + - px a in
    let wy := py p + - py a in
    let vlen2 := vx * vx + vy * vy in
    if Qeq_bool vlen2 0
    then {| o_dist := Num (hypot wx wy); o_side := Num 0 |}
    else
      let t := (wx * vx + wy * vy) / vlen2 in
      {| o_dist := Num (hypot (px p + - (px a + vx * t))
                              (py p + - (py a + vy * t)));
         o_side := Num (vx * wy + - (vy * wx)) |}.
Proof.
  unfold perpDistanceToLine, vecSub, vecAdd, vecScale, vecDot, vecLen, jsOf.
  cbn [jx jy js_sub js_neg js_add js_mul js_is0].
  destruct (Qeq_bool _ 0) eqn:E; [done|].
  cbn [js_quot]. rewrite E. reflexivity.
Qed.

(** X3.  [perpDistanceToLine] on finite points.  The side is the cross
    product [(b - a) x (point - a)].  When [a] and [b] are the same point
    the distance is the distance from [point] to it (and the side is 0).
    Otherwise the distance is measured from [point] to a point of the line
    through [a] and [b], along a vector perpendicular to the line. *)
Theorem perpDistanceToLine_foot (p a b : xy) :
  ∃ d s ex ey,
    perpDistanceToLine (jsOf p) (jsOf a) (jsOf b)
    = {| o_dist := Num d; o_side := Num s |}
    ∧ s == cross p a b
    ∧ d = hypot ex ey
    ∧ ((px a == px b ∧ py a == py b) ->
         ex == px p - px a ∧ ey == py p - py a)
    ∧ (¬ (px a == px b ∧ py a == py b) ->
         ∃ t, ex == px p - (px a + t * (px b - px a))
           ∧ ey == py p - (py a + t * (py b - py a))
           ∧ ex * (px b - px a) + ey * (py b - py a) == 0).
Proof.
  rewrite perpDistanceToLine_finite. cbn zeta. unfold cross.
  destruct (Qeq_bool _ 0) eqn:E.
  - apply Qeq_bool_iff, square_sum_zero in E as [Ex Ey].
    eexists _, _, _, _. split; [reflexivity|]. split_and!.
    + assert (px b - px a == 0) as -> by lra.
      assert (py b - py a == 0) as -> by lra. lra.
    + reflexivity.
    + intros _. split; lra.
    + intros H. destruct H. split; lra.
  - assert (¬ (px b + - px a) * (px b + - px a)
              + (py b + - py a) * (py b + - py a) == 0) as Hne.
    { intros H. apply Qeq_bool_iff in H. congruence. }
    eexists _, _, _, _. split; [reflexivity|]. split_and!.
    + lra.
    + reflexivity.
    + intros [Hx Hy]. destruct Hne. apply square_sum_zero. split; lra.
    + intros _. eexists. split_and!; [| |].
      * assert (∀ u v w z : Q, w == z -> u + - (v + (px b + - px a) * w)
                  == u - (v + z * (px b - px a))) as Hrw
          by (intros u v w z ->; lra).
        apply Hrw. reflexivity.
      * assert (∀ u v w z : Q, w == z -> u + - (v + (py b + - py a) * w)
                  == u - (v + z * (py b - py a))) as Hrw
          by (intros u v w z ->; lra).
        apply Hrw. reflexivity.
      * field. exact Hne.
Qed.

Lemma perp_side (p a b : xy) :
  ∃ s, o_side (perpDistanceToLine (jsOf p) (jsOf a) (jsOf b)) = Num s
    ∧ s == cross p a b.
Proof.
  rewrite perpDistanceToLine_finite. cbn zeta. unfold cross.
  destruct (Qeq_bool _ 0) eqn:E; cbn [o_side]; eexists; (split; [reflexivity|]).
  - apply Qeq_bool_iff, square_sum_zero in E as [Ex Ey].
    assert (px b - px a == 0) as -> by lra.
    assert (py b - py a == 0) as -> by lra. lra.
  - lra.
Qed.

Lemma sideLabel_Num (s : Q) :
  (sideLabel (Num s) = "C" <-> s == 0)
  ∧ (sideLabel (Num s) = "L" <-> 0 < s)
  ∧ (sideLabel (Num s) = "R" <-> s < 0).
Proof.
  unfold sideLabel. cbn [js_is0 js_lt].
  destruct (Qeq_bool s 0) eqn:E.
  - apply Qeq_bool_iff in E. split_and!; split; (done || lra).
  - assert (¬ s == 0) as Hne by (intros H; apply Qeq_bool_iff in H; congruence).
    destruct (Qlt_le_dec 0 s); split_and!; split; (done || lra).
Qed.

Lemma cross_swap (p a b : xy) : cross p b a == - cross p a b.
Proof. unfold cross. ring. Qed.

(** X4.  The label of a marker against a line through finite points.  It
    is "C" exactly when the marker is on the line (or the two points of the
    line coincide), "L" when the cross product [(b - a) x (point - a)] is
    positive and "R" when it is negative.  Exchanging the two points of the
    line exchanges "L" and "R". *)
Theorem sideLabel_by_cross (p a b : xy) :
  let label := sideLabel (o_side (perpDistanceToLine (jsOf p) (jsOf a) (jsOf b))) in
  let swapped := sideLabel (o_side (perpDistanceToLine (jsOf p) (jsOf b) (jsOf a))) in
  (label = "C" <-> cross p a b == 0)
  ∧ (label = "L" <-> 0 < cross p a b)
  ∧ (label = "R" <-> cross p a b < 0)
  ∧ (swapped = "C" <-> label = "C")
  ∧ (swapped = "L" <-> label = "R")
  ∧ (swapped = "R" <-> label = "L").
Proof.
  cbn zeta.
  destruct (perp_side p a b) as (s & -> & Hs).
  destruct (perp_side p b a) as (s' & -> & Hs').
  rewrite cross_swap in Hs'.
  destruct (sideLabel_Num s) as (HC & HL & HR).
  destruct (sideLabel_Num s') as (HC' & HL' & HR').
  rewrite HC, HL, HR, HC', HL', HR'. rewrite Hs, Hs'.
  split_and!; split; intros; lra.
Qed.

Lemma lookup_pointOffsets (st : state) (k : nat) :
  pointOffsets st !! k
  = offsetOfPoint (midlineEndpoints (landmarks st)) <$> points st !! k.
Proof. unfold pointOffsets. by rewrite list_lookup_fmap. Qed.

(** X5.  Markers against the fallback midline.  When landmark [10] or
    [152] is missing and the bounding box of the mesh is finite, the
    midline is the vertical line through the centre of the box, and the
    offset of each marker reads off its [x]: on a box with some height the
    label is "L" left of the centre, "R" right of it and "C" on it, and
    the distance is taken along a horizontal vector of the marker's
    distance to the centre line; on a box with no height every label is
    "C". *)
Theorem pointOffsets_bbox_midline (st : state) (x0 x1 y0 y1 : Q)
    (k : nat) (p : AnnotationPoint) :
  boundingBox (landmarks st)
    = {| minX := Num x0; maxX := Num x1; minY := Num y0; maxY := Num y1 |} ->
  entry (landmarks st) 10 = None ∨ entry (landmarks st) 152 = None ->
  points st !! k = Some p ->
  ∃ o, pointOffsets st !! k = Some o
    ∧ po_id o = pt_id p
    ∧ (y0 < y1 ->
         (sideLabel (po_side o) = "L" <-> pt_x p < (x0 + x1) / 2)
         ∧ (sideLabel (po_side o) = "R" <-> (x0 + x1) / 2 < pt_x p)
         ∧ (sideLabel (po_side o) = "C" <-> pt_x p == (x0 + x1) / 2)
         ∧ ∃ ex ey, po_dist o = Num (Math_round (hypot ex ey))
             ∧ ex == pt_x p - (x0 + x1) / 2 ∧ ey == 0)
    ∧ (y0 == y1 -> sideLabel (po_side o) = "C").
Proof.
  intros Hbox Habs Hp.
  assert (landmarks st ≠ []) as Hne.
  { intros Hnil. rewrite Hnil in Hbox. discriminate Hbox. }
  rewrite lookup_pointOffsets, Hp. cbn [fmap option_fmap option_map].
  rewrite (midlineEndpoints_fallback _ Hne Habs).
  unfold bboxMidline. rewrite Hbox.
  cbn [minX maxX minY maxY js_add js_div offsetOfPoint mid_a mid_b].
  set (cx := (x0 + x1) / 2).
  set (P := {| px := pt_x p; py := pt_y p |}).
  set (A := {| px := cx; py := y0 |}).
  set (B := {| px := cx; py := y1 |}).
  change (perpDistanceToLine _ _ _)
    with (perpDistanceToLine (jsOf P) (jsOf A) (jsOf B)).
  eexists. split; [reflexivity|]. cbn [po_id po_side po_dist].
  split; [reflexivity|].
  destruct (perp_side P A B) as (s & Hside & Hs).
  unfold cross in Hs. cbn [px py P A B] in Hs.
  destruct (sideLabel_Num s) as (HC & HL & HR).
  assert (s == (y1 - y0) * (cx - pt_x p)) as Hs' by (rewrite Hs; ring).
  split.
  - intros Hy. rewrite Hside, HL, HR, HC, Hs'. split_and!.
    + split; intros H.
      * apply Qnot_le_lt. intros Hle.
        assert (0 <= (y1 - y0) * (pt_x p - cx)) by (apply Qmult_le_0_compat; lra).
        lra.
      * apply Qmult_lt_0_compat; lra.
    + split; intros H.
      * apply Qnot_le_lt. intros Hle.
        assert (0 <= (y1 - y0) * (cx - pt_x p)) by (apply Qmult_le_0_compat; lra).
        lra.
      * assert (0 < (y1 - y0) * (pt_x p - cx)) by (apply Qmult_lt_0_compat; lra).
        lra.
    + split; intros H.
      * apply Qmult_integral in H as [H|H]; lra.
      * rewrite H. ring.
    + rewrite perpDistanceToLine_finite. cbn zeta. cbn [px py P A B].
      destruct (Qeq_bool _ 0) eqn:E.
      { apply Qeq_bool_iff, square_sum_zero in E as [_ E]. lra. }
      cbn [o_dist js_round]. eexists _, _. split; [reflexivity|].
      split; [ring_simplify; lra|].
      field. intros H. apply square_sum_zero in H as [_ H]. lra.
  - intros Hy. rewrite Hside. apply HC. rewrite Hs', Hy. ring.
Qed.

(** X6.  Markers when there is no landmark to measure from.  Before a mesh
    is detected every offset is 0 px and the label is "C".  With a mesh
    that holds no landmark at all (only missing entries) the midline is
    built from the untouched bounding box: distance and side are [NaN], and
    the label is "R". *)
Theorem pointOffsets_without_landmarks (st : state) (k : nat)
    (p : AnnotationPoint) :
  (∀ i, entry (landmarks st) i = None) ->
  points st !! k = Some p ->
  ∃ o, pointOffsets st !! k = Some o
    ∧ (landmarks st = [] ->
         o = {| po_id := pt_id p; po_dist := Num 0; po_side := Num 0 |}
         ∧ sideLabel (po_side o) = "C")
    ∧ (landmarks st ≠ [] ->
         o = {| po_id := pt_id p; po_dist := NaN; po_side := NaN |}
         ∧ sideLabel (po_side o) = "R").
Proof.
  intros Hnone Hp. rewrite lookup_pointOffsets, Hp.
  cbn [fmap option_fmap option_map]. eexists. split; [reflexivity|]. split.
  - intros ->. done.
  - intros Hne.
    rewrite (midlineEndpoints_fallback _ Hne (or_introl (Hnone 10%nat))).
    unfold bboxMidline.
    destruct (boundingBox_of (landmarks st)) as [[_ ->] | Hfin].
    + done.
    + destruct Hfin as (x0 & x1 & y0 & y1 & _ & _ & (i & lm & Hi & _) & _).
      by rewrite Hnone in Hi.
Qed.

(** X7.  The offset shown beside a marker.  When the identifiers of the
    markers are pairwise different, the look-up by identifier in the
    render finds, for the marker at position [k], the offset computed from
    that very marker. *)
Theorem offsetFor_own_offset (st : state) (k : nat) (p : AnnotationPoint) :
  NoDup (ids (points st)) ->
  points st !! k = Some p ->
  offsetFor st p = Some (offsetOfPoint (midlineEndpoints (landmarks st)) p).
Proof.
  unfold offsetFor, pointOffsets, ids.
  generalize (midlineEndpoints (landmarks st)) as mid. intros mid.
  revert k. induction (points st) as [|q qs IH]; intros k Hnd Hp; [done|].
  assert (∀ m x, po_id (offsetOfPoint m x) = pt_id x) as Hid
    by (intros [m|] x; reflexivity).
  cbn [map find fmap list_fmap] in *. rewrite Hid.
  apply NoDup_cons in Hnd as [Hnotin Hnd].
  destruct k as [|k]; cbn in Hp.
  - injection Hp as ->. by rewrite bool_decide_eq_true_2.
  - rewrite bool_decide_eq_false_2.
    + by apply (IH k).
    + intros Heq. apply Hnotin. rewrite Heq.
      apply list_elem_of_fmap. exists p. split; [done|].
      by eapply list_elem_of_lookup_2.
Qed.

Lemma toHex_two_digits (n : Z) :
  (0 <= n <= 255)%Z ->
  ∃ a b, toHex (Some n) = String a (String b EmptyString)
       ∧ parseInt16 (String a (String b EmptyString)) = Some n.
Proof.
  intros Hn.
  assert (forallb two_digits_back (Z.of_nat <$> seq 0 256) = true) as Hall
    by (vm_compute; reflexivity).
  rewrite forallb_forall in Hall.
  specialize (Hall n). unfold two_digits_back in Hall.
  destruct (toHex (Some n)) as [|a [|b [|c s]]] eqn:E;
    try (discriminate Hall; fail).
  - exfalso. apply Bool.diff_false_true, Hall.
    apply list_elem_of_In, list_elem_of_fmap. exists (Z.to_nat n).
    split; [lia|]. apply elem_of_seq. lia.
  - exfalso. apply Bool.diff_false_true, Hall.
    apply list_elem_of_In, list_elem_of_fmap. exists (Z.to_nat n).
    split; [lia|]. apply elem_of_seq. lia.
  - exists a, b. split; [done|].
    destruct (parseInt16 _) as [m|].
    + f_equal. apply Z.eqb_eq, Hall.
      apply list_elem_of_In, list_elem_of_fmap. exists (Z.to_nat n).
      split; [lia|]. apply elem_of_seq. lia.
    + exfalso. apply Bool.diff_false_true, Hall.
      apply list_elem_of_In, list_elem_of_fmap. exists (Z.to_nat n).
      split; [lia|]. apply elem_of_seq. lia.
  - exfalso. apply Bool.diff_false_true, Hall.
    apply list_elem_of_In, list_elem_of_fmap. exists (Z.to_nat n).
    split; [lia|]. apply elem_of_seq. lia.
Qed.

(** X8.  A channel value from 0 to 255 is written by [toHex] as two
    hexadecimal digits, which [parseInt] in base 16 reads back as the same
    value; [NaN] is written as the three letters of its name. *)
Theorem toHex_parseInt16_round_trip (n : Z) :
  (0 <= n <= 255)%Z ->
  String.length (toHex (Some n)) = 2%nat
  ∧ parseInt16 (toHex (Some n)) = Some n
  ∧ toHex None = "NaN".
Proof.
  intros Hn. destruct (toHex_two_digits n Hn) as (a & b & -> & Hback).
  by rewrite Hback.
Qed.



(** X10.  The shorthand of three digits.  [darkenHex] writes a colour
    [#abc] out as [#aabbcc] before it reads the channels: both give the
    same result, whatever the three characters are. *)
Theorem darkenHex_shorthand (a b c : Ascii.ascii) (amount : Q) :
  darkenHex (String "#" (String a (String b (String c EmptyString)))) amount
  = darkenHex
      (String "#" (String a (String a (String b (String b
         (String c (String c EmptyString))))))) amount.
Proof. reflexivity. Qed.

(* ----------------------------------------------------------------- *)
(** *** Points of landmark indices *)

(** X11.  [indicesToXY] returns [null] exactly when the mesh is empty or
    one of the indices has no landmark.  Otherwise it returns one point for
    each index, in the order of the indices: the [x] and [y] of the
    landmark at that index. *)
Theorem indicesToXY_points (indices : list nat) (landmarks : mesh) :
  (indicesToXY indices landmarks = None
   <-> landmarks = [] ∨ ∃ i, i ∈ indices ∧ entry landmarks i = None)
  ∧ ∀ pts, indicesToXY indices landmarks = Some pts ->
      length pts = length indices
      ∧ ∀ k i, indices !! k = Some i ->
          ∃ lm, entry landmarks i = Some lm
            ∧ pts !! k = Some {| px := lm0 lm; py := lm1 lm |}.
Proof.
  split; [apply indicesToXY_None|].
  intros pts Hpts. apply indicesToXY_Some in Hpts. split.
  - symmetry. by eapply Forall2_length.
  - intros k i Hi.
    destruct (Forall2_lookup_l _ _ _ _ _ Hpts Hi) as (p & Hp & lm & Hlm & ->).
    by exists lm.
Qed.

(** X12.  [flattenPts] lays the points out as [x0, y0, x1, y1, ...]: twice
    as many numbers as points, the [x] of point [k] at [2k] and its [y] at
    [2k + 1]. *)
Theorem flattenPts_layout (pts : list xy) :
  length (flattenPts pts) = (2 * length pts)%nat
  ∧ ∀ k, flattenPts pts !! (2 * k)%nat = px <$> pts !! k
       ∧ flattenPts pts !! (2 * k + 1)%nat = py <$> pts !! k.
Proof.
  unfold flattenPts. induction pts as [|p pts [IHl IHk]].
  - split; [done|]. intros k. by rewrite !lookup_nil.
  - cbn [flat_map app length]. split; [lia|].
    intros [|k].
    + done.
    + replace (2 * S k)%nat with (S (S (2 * k))) by lia.
      replace (S (S (2 * k)) + 1)%nat with (S (S (2 * k + 1))) by lia.
      cbn [lookup list_lookup]. apply IHk.
Qed.

Lemma indicesToXY_is_Some (indices : list nat) (landmarks : mesh) :
  landmarks ≠ [] ->
  (∀ i, i ∈ indices -> is_Some (entry landmarks i)) ->
  is_Some (indicesToXY indices landmarks).
Proof.
  intros Hne Hall.
  destruct (indicesToXY indices landmarks) as [pts|] eqn:E; [by eexists|].
  apply indicesToXY_None in E as [E | (i & Hi & Hnone)]; [done|].
  destruct (Hall i Hi) as [lm Hlm]. congruence.
Qed.

Lemma entry_nil (i : nat) : entry [] i = None.
Proof. unfold entry. by rewrite lookup_nil. Qed.

Lemma omap_all_Some {A B : Type} (f : A -> option B) (g : B -> A)
    (l : list A) :
  (∀ x y, f x = Some y -> g y = x) ->
  (∀ x, x ∈ l -> is_Some (f x)) ->
  g <$> omap f l = l.
Proof.
  intros Hg. induction l as [|x l IH]; intros Hall; [done|].
  cbn [omap list_omap]. destruct (Hall x) as [y Hy]; [by left|].
  rewrite Hy. cbn [fmap list_fmap]. rewrite (Hg x y Hy). f_equal.
  apply IH. intros x' Hx'. apply Hall. by right.
Qed.

Lemma omap_sublist {A B : Type} (f : A -> option B) (g : B -> A)
    (l : list A) :
  (∀ x y, f x = Some y -> g y = x) ->
  g <$> omap f l `sublist_of` l.
Proof.
  intros Hg. induction l as [|x l IH]; [done|].
  cbn [omap list_omap]. destruct (f x) as [y|] eqn:Hy.
  - cbn [fmap list_fmap]. rewrite (Hg x y Hy). by apply sublist_skip.
  - by apply sublist_cons.
Qed.

Lemma muscleDefs_boundary (m : muscleDef) :
  m ∈ muscleDefs -> ∃ i, i ∈ m_boundary m.
Proof.
  unfold muscleDefs. intros Hm.
  repeat (apply elem_of_cons in Hm as [-> | Hm];
          [eexists; cbn [m_boundary]; by left|]).
  by apply elem_of_nil in Hm.
Qed.

Lemma vesselDefs_indices (v : vesselDef) :
  v ∈ vesselDefs -> ∃ i, i ∈ v_indices v.
Proof.
  unfold vesselDefs. intros Hv.
  repeat (apply elem_of_cons in Hv as [-> | Hv];
          [eexists; cbn [v_indices]; by left|]).
  by apply elem_of_nil in Hv.
Qed.

Lemma muscleDefs_below (m : muscleDef) (i : nat) :
  m ∈ muscleDefs -> i ∈ m_boundary m -> (i < 455)%nat.
Proof.
  unfold muscleDefs. intros Hm Hi.
  repeat (apply elem_of_cons in Hm as [-> | Hm];
          [cbn [m_boundary] in Hi;
           repeat (apply elem_of_cons in Hi as [-> | Hi]; [lia|]);
           by apply elem_of_nil in Hi|]).
  by apply elem_of_nil in Hm.
Qed.

Lemma vesselDefs_below (v : vesselDef) (i : nat) :
  v ∈ vesselDefs -> i ∈ v_indices v -> (i < 455)%nat.
Proof.
  unfold vesselDefs. intros Hv Hi.
  repeat (apply elem_of_cons in Hv as [-> | Hv];
          [cbn [v_indices] in Hi;
           repeat (apply elem_of_cons in Hi as [-> | Hi]; [lia|]);
           by apply elem_of_nil in Hi|]).
  by apply elem_of_nil in Hv.
Qed.

Lemma muscleShapeOf_is_Some (landmarks : mesh) (m : muscleDef) :
  m ∈ muscleDefs ->
  (∀ i, i ∈ m_boundary m -> is_Some (entry landmarks i)) ->
  is_Some (muscleShapeOf landmarks m).
Proof.
  intros Hm Hall. unfold muscleShapeOf.
  destruct (indicesToXY_is_Some (m_boundary m) landmarks) as [pts ->];
    [|done|by eexists].
  intros ->. destruct (muscleDefs_boundary m Hm) as [i Hi].
  destruct (Hall i Hi) as [lm Hlm]. by rewrite entry_nil in Hlm.
Qed.

Lemma vesselShapeOf_is_Some (landmarks : mesh) (v : vesselDef) :
  v ∈ vesselDefs ->
  (∀ i, i ∈ v_indices v -> is_Some (entry landmarks i)) ->
  is_Some (vesselShapeOf landmarks v).
Proof.
  intros Hv Hall. unfold vesselShapeOf.
  destruct (indicesToXY_is_Some (v_indices v) landmarks) as [pts ->];
    [|done|by eexists].
  intros ->. destruct (vesselDefs_indices v Hv) as [i Hi].
  destruct (Hall i Hi) as [lm Hlm]. by rewrite entry_nil in Hlm.
Qed.

(** X13.  What is drawn when the landmarks are there.  A muscle of the
    table whose boundary indices all have a landmark is in the list to
    render, with the points of those landmarks as its boundary; a vessel
    whose indices all have a landmark likewise.  The lists to render keep
    the order of the tables.  With a landmark at every index below 455 all
    four muscles and all six vessels are rendered. *)
Theorem overlays_with_landmarks_present (landmarks : mesh) :
  (∀ m, m ∈ muscleDefs ->
     (∀ i, i ∈ m_boundary m -> is_Some (entry landmarks i)) ->
     ∃ s, s ∈ musclesToRender landmarks ∧ ms_def s = m
       ∧ Forall2 (fun i p => ∃ lm, entry landmarks i = Some lm ∧ p = xyOf lm)
           (m_boundary m) (ms_boundaryPts s))
  ∧ (∀ v, v ∈ vesselDefs ->
       (∀ i, i ∈ v_indices v -> is_Some (entry landmarks i)) ->
       ∃ s, s ∈ vesselShapes landmarks ∧ vs_def s = v
         ∧ Forall2 (fun i p => ∃ lm, entry landmarks i = Some lm ∧ p = xyOf lm)
             (v_indices v) (vs_pts s))
  ∧ ms_def <$> musclesToRender landmarks `sublist_of` muscleDefs
  ∧ vs_def <$> vesselShapes landmarks `sublist_of` vesselDefs
  ∧ ((∀ i, (i < 455)%nat -> is_Some (entry landmarks i)) ->
       ms_def <$> musclesToRender landmarks = muscleDefs
       ∧ vs_def <$> vesselShapes landmarks = vesselDefs).
Proof.
  split_and!.
  - intros m Hm Hall.
    destruct (muscleShapeOf_is_Some landmarks m Hm Hall) as [s Hs].
    exists s. split_and!.
    + apply elem_of_musclesToRender. by exists m.
    + by apply muscleShapeOf_def in Hs.
    + unfold muscleShapeOf in Hs.
      destruct (indicesToXY (m_boundary m) landmarks) as [pts|] eqn:E; [|done].
      injection Hs as <-. by apply indicesToXY_Some.
  - intros v Hv Hall.
    destruct (vesselShapeOf_is_Some landmarks v Hv Hall) as [s Hs].
    exists s. split_and!.
    + apply elem_of_vesselShapes. by exists v.
    + by apply vesselShapeOf_def in Hs.
    + unfold vesselShapeOf in Hs.
      destruct (indicesToXY (v_indices v) landmarks) as [pts|] eqn:E; [|done].
      injection Hs as <-. by apply indicesToXY_Some.
  - apply omap_sublist. intros m s. apply muscleShapeOf_def.
  - apply omap_sublist. intros v s. apply vesselShapeOf_def.
  - intros Hfull. split.
    + apply omap_all_Some; [intros m s; apply muscleShapeOf_def|].
      intros m Hm. apply muscleShapeOf_is_Some; [done|].
      intros i Hi. apply Hfull. by eapply muscleDefs_below.
    + apply omap_all_Some; [intros v s; apply vesselShapeOf_def|].
      intros v Hv. apply vesselShapeOf_is_Some; [done|].
      intros i Hi. apply Hfull. by eapply vesselDefs_below.
Qed.

(* ----------------------------------------------------------------- *)
(** *** The overlay layer never fails *)

Lemma length_mjoin_const {A : Type} (n : nat) (ls : list (list A)) :
  Forall (fun l => length l = n) ls ->
  length (mjoin ls) = (n * length ls)%nat.
Proof.
  induction 1 as [|l ls Hl _ IH]; simpl; [lia|].
  rewrite length_app, IH, Hl. lia.
Qed.

Lemma lookup_mjoin_pairs {A : Type} (ls : list (list A)) (k : nat) (a b : A) :
  Forall (fun l => length l = 2%nat) ls ->
  ls !! k = Some [a; b] ->
  mjoin ls !! (2 * k)%nat = Some a ∧ mjoin ls !! (2 * k + 1)%nat = Some b.
Proof.
  intros Hall. revert k. induction Hall as [|l ls Hl _ IH]; intros k Hk.
  - by rewrite lookup_nil in Hk.
  - destruct l as [|x [|y [|z l]]]; try discriminate Hl.
    destruct k as [|k]; simpl in Hk |- *.
    + by injection Hk as -> ->.
    + replace (k + S (k + 0))%nat with (S (2 * k)) by lia.
      replace (S (2 * k) + 1)%nat with (S (2 * k + 1)) by lia.
      simpl. exact (IH k Hk).
Qed.

(** X14.  Drawing the vessels never fails: every vessel to render has a
    first point for its label, because each path of the table names at
    least one landmark.  Each vessel gives a line and a label, the label
    6 right of and 12 above its first point; nothing is drawn when the
    layer is switched off. *)
Theorem drawVessels_total (showVessels : bool) (landmarks : mesh) :
  ∃ prims, drawVessels showVessels landmarks = Some prims
    ∧ length prims
      = (if showVessels then 2 * length (vesselShapes landmarks) else 0)%nat
    ∧ (showVessels = true ->
       ∀ k s, vesselShapes landmarks !! k = Some s ->
         ∃ i lm, v_indices (vs_def s) !! 0%nat = Some i
           ∧ entry landmarks i = Some lm
           ∧ prims !! (2 * k)%nat = Some (Line (Num <$> flattenPts (vs_pts s)))
           ∧ prims !! (2 * k + 1)%nat
             = Some (Text (v_label (vs_def s))
                       (Num (lm0 lm + 6)) (Num (lm1 lm - 12)))).
Proof.
  unfold drawVessels. destruct showVessels.
  2:{ exists []. by split_and!. }
  assert (∀ s, s ∈ vesselShapes landmarks ->
            ∃ i lm, v_indices (vs_def s) !! 0%nat = Some i
              ∧ entry landmarks i = Some lm
              ∧ drawVessel s
                = Some [ Line (Num <$> flattenPts (vs_pts s));
                         Text (v_label (vs_def s))
                           (Num (lm0 lm + 6)) (Num (lm1 lm - 12)) ]) as Hdraw.
  { intros s Hs. apply elem_of_vesselShapes in Hs as (v & Hv & Hs).
    pose proof (vesselShapeOf_def _ _ _ Hs) as ->.
    unfold vesselShapeOf in Hs.
    destruct (indicesToXY (v_indices v) landmarks) as [pts|] eqn:E; [|done].
    injection Hs as <-. cbn [vs_def vs_pts] in *.
    apply indicesToXY_Some in E.
    destruct (vesselDefs_indices v Hv) as [i0 Hi0].
    destruct (v_indices v) as [|i rest] eqn:Hidx; [by apply elem_of_nil in Hi0|].
    inversion E as [|? p ? pts' (lm & Hlm & ->) Hrest]; subst.
    exists i, lm. split_and!; [done..|]. unfold drawVessel.
    cbn [vs_pts vs_def lookup list_lookup mbind option_bind xyOf px py].
    reflexivity. }
  destruct (mapM drawVessel (vesselShapes landmarks)) as [drawn|] eqn:HmapM.
  2:{ apply mapM_None, Exists_exists in HmapM as (s & Hs & Hnone).
      destruct (Hdraw s Hs) as (i & lm & _ & _ & Hsome). congruence. }
  apply mapM_Some in HmapM.
  assert (Forall (fun l : list prim => length l = 2%nat) drawn) as Hpairs.
  { apply Forall_forall. intros l Hl.
    apply list_elem_of_lookup in Hl as [k Hk].
    destruct (Forall2_lookup_r _ _ _ _ _ HmapM Hk) as (s & Hs & Hsl).
    destruct (Hdraw s) as (i & lm & _ & _ & Hsome).
    { by eapply list_elem_of_lookup_2. }
    rewrite Hsome in Hsl. by injection Hsl as <-. }
  exists (mjoin drawn). split_and!; [done| |].
  - rewrite (length_mjoin_const 2) by done.
    by rewrite <- (Forall2_length _ _ _ HmapM).
  - intros _ k s Hs.
    destruct (Hdraw s) as (i & lm & Hi & Hlm & Hsome).
    { by eapply list_elem_of_lookup_2. }
    exists i, lm. split_and!; [done..| |];
      destruct (Forall2_lookup_l _ _ _ _ _ HmapM Hs) as (l & Hl & Hsl);
      rewrite Hsome in Hsl; injection Hsl as <-;
      by destruct (lookup_mjoin_pairs _ _ _ _ Hpairs Hl).
Qed.

Section Fibres.

Hypothesis hypot_nonneg : ∀ x y, 0 <= hypot x y.

Lemma samplesAlong_is_Some (pts : list xy) (n : nat) :
  ∃ samples, samplesAlong pts n = Some samples
    ∧ (samples = [] ∨ length samples = n).
Proof using hypot_nonneg.
  unfold samplesAlong.
  destruct (bool_decide (length pts < 2)%nat); [exists []; by split; [|left]|].
  rewrite segLensOf_segments. cbn [mbind option_bind].
  destruct (Qeq_bool (totalOf (segments pts)) 0) eqn:Htot;
    [exists []; by split; [|left]|].
  assert (0 < totalOf (segments pts)) as Hpos.
  { pose proof (fold_plus_ge (segments pts) 0
                  (segments_nonneg hypot_nonneg pts)) as Hge.
    fold (totalOf (segments pts)) in Hge.
    assert (¬ totalOf (segments pts) == 0) as Hne
      by (intros H; apply Qeq_bool_iff in H; congruence).
    lra. }
  destruct (mapM (sampleAt pts (segments pts) (totalOf (segments pts)) n)
              (seq 0 n)) as [samples|] eqn:HmapM.
  - exists samples. split; [done|]. right.
    apply mapM_Some, Forall2_length in HmapM.
    by rewrite length_seq in HmapM.
  - apply mapM_None, Exists_exists in HmapM as (s & Hs & Hnone).
    apply elem_of_seq in Hs.
    destruct (sampleAt_on_segment hypot_nonneg pts n s) as (smp & Hsmp & _);
      [lia | done | congruence].
Qed.

(** X15.  Drawing the muscles never fails: sampling the fibres reads no
    point out of range, whatever the mesh.  Each muscle to render gives its
    two outlines and then no fibre stroke (a polyline of length 0) or
    twelve; nothing is drawn when the layer is switched off.  Of
    [Math.hypot] only [0 <= hypot x y] is used. *)
Theorem drawMuscles_total (showMuscles : bool) (landmarks : mesh) :
  ∃ prims, drawMuscles showMuscles landmarks = Some prims
    ∧ (showMuscles = false -> prims = [])
    ∧ (showMuscles = true ->
       ∃ drawn, prims = mjoin drawn
         ∧ Forall2 (fun s l =>
                      ∃ strokes,
                        l = [ Line (Num <$> flattenPts (ms_boundaryPts s));
                              Line (Num <$> flattenPts (ms_boundaryPts s)) ]
                            ++ strokes
                        ∧ (length strokes = 0 ∨ length strokes = 12)%nat)
             (musclesToRender landmarks) drawn).
Proof using hypot_nonneg.
  unfold drawMuscles. destruct showMuscles.
  2:{ exists []. by split_and!. }
  destruct (mapM drawMuscle (musclesToRender landmarks)) as [drawn|] eqn:HmapM.
  2:{ apply mapM_None, Exists_exists in HmapM as (s & _ & Hnone).
      unfold drawMuscle in Hnone.
      destruct (samplesAlong_is_Some
                  (default (ms_boundaryPts s) (ms_centerPts s)) 12)
        as (samples & Hsome & _).
      by rewrite Hsome in Hnone. }
  exists (mjoin drawn). split_and!; [done..|].
  intros _. exists drawn. split; [done|].
  apply mapM_Some in HmapM. eapply Forall2_impl; [exact HmapM|].
  intros s l Hl. unfold drawMuscle in Hl.
  destruct (samplesAlong_is_Some
              (default (ms_boundaryPts s) (ms_centerPts s)) 12)
    as (samples & Hsome & Hlen).
  rewrite Hsome in Hl. cbn [mbind option_bind] in Hl. injection Hl as <-.
  eexists. split; [reflexivity|]. rewrite length_imap.
  destruct Hlen as [-> | ->]; [by left | by right].
Qed.

End Fibres.

(* ----------------------------------------------------------------- *)
(** *** Marker handlers *)

Lemma presetPoints_made mid th (indices : list nat)
    (newPts : list AnnotationPoint) (st : state) :
  ∃ made,
    fst (presetPoints mid th indices newPts st) = newPts ++ made
    ∧ imageFit (snd (presetPoints mid th indices newPts st)) = imageFit st
    ∧ Forall blank made
    ∧ ∀ k idx lm, indices !! k = Some idx ->
        entry (landmarks st) idx = Some lm ->
        ∃ p, made !! k = Some p ∧ pt_x p = lm0 lm ∧ pt_y p = lm1 lm.
Proof.
  revert newPts st. induction indices as [|idx indices IH]; intros newPts st.
  - exists []. cbn. split_and!; [by rewrite app_nil_r | done | done |].
    intros k idx lm Hk. by rewrite lookup_nil in Hk.
  - cbn [presetPoints].
    match goal with
    | |- context [presetPoints _ _ _ (newPts ++ [fst ?r]) (snd ?r)] =>
        set (made1 := r)
    end.
    assert (landmarks (snd made1) = landmarks st) as Hl.
    { unfold made1. destruct (entry (landmarks st) idx); [done|].
      by destruct mid, th. }
    assert (blank (fst made1)) as Hb.
    { unfold made1. destruct (entry (landmarks st) idx); [done|].
      by destruct mid, th. }
    assert (imageFit (snd made1) = imageFit st) as Hf.
    { unfold made1. destruct (entry (landmarks st) idx); [done|].
      by destruct mid, th. }
    destruct (IH (newPts ++ [fst made1]) (snd made1))
      as (made & Hmade & Hfit & Hblank & Hat).
    exists (fst made1 :: made). split_and!.
    + rewrite Hmade. by rewrite <- app_assoc.
    + by rewrite Hfit.
    + by constructor.
    + intros [|k] i lm Hk Hlm; cbn in Hk.
      * injection Hk as <-. exists (fst made1). split; [done|].
        unfold made1. by rewrite Hlm.
      * rewrite <- Hl in Hlm. apply (Hat k i lm Hk Hlm).
Qed.

(** X16.  A preset adds four markers at the end of the list and keeps the
    markers that were there.  The new markers carry the next four
    identifiers of [nanoid], and an empty product and dose.  A marker whose
    landmark is in the mesh is placed on it.  Without a mesh the four are
    placed on a diagonal around the centre of the stage: 30, 18 and 6 to
    the left of it and 6 to the right, 25, 15 and 5 above it and 5 below.
    The mesh, the detector and the stage are left as they were. *)
Theorem addPreset_appends_four (name : preset) (st : state) :
  ∃ p0 p1 p2 p3,
    let made := [p0; p1; p2; p3] in
    let st' := addPreset name st in
    points st' = points st ++ made
    ∧ ids made = gen <$> seq (nonce st) 4
    ∧ nonce st' = (nonce st + 4)%nat
    ∧ Forall blank made
    ∧ (∀ k idx lm, presetIndices name !! k = Some idx ->
         entry (landmarks st) idx = Some lm ->
         ∃ p, made !! k = Some p ∧ pt_x p = lm0 lm ∧ pt_y p = lm1 lm)
    ∧ (landmarks st = [] ->
         let cx := width (stageSize st) / 2 in
         let cy := height (stageSize st) / 2 in
         Forall2 Qeq (pt_x <$> made) [cx - 30; cx - 18; cx - 6; cx + 6]
         ∧ Forall2 Qeq (pt_y <$> made) [cy - 25; cy - 15; cy - 5; cy + 5])
    ∧ landmarks st' = landmarks st
    ∧ detector st' = detector st
    ∧ imageFit st' = imageFit st
    ∧ stageSize st' = stageSize st.
Proof.
  unfold addPreset. destruct (landmarks st) as [|e0 lms] eqn:Hlms.
  - cbn [fallbackPoints fst snd freshPoint nanoid].
    eexists _, _, _, _. cbn zeta.
    cbn [setPoints emit points bump nonce landmarks detector imageFit
         stageSize ids fmap list_fmap pt_id pt_x pt_y seq].
    split_and!; try done.
    + lia.
    + by repeat constructor.
    + intros _. cbn [pt_x pt_y]. unfold inject_Z.
      split; repeat (constructor; [field|]); constructor.
  - rewrite <- Hlms.
    set (mid := midlineEndpoints (landmarks st)).
    set (th := thirdsYs (landmarks st)).
    destruct (presetPoints_batch mid th (presetIndices name) [] st st
                (batch_nil st)) as [Hbatch Hlen].
    destruct (presetPoints_made mid th (presetIndices name) [] st)
      as (made & Hmade & Hfit & Hblank & Hat).
    cbn [app] in Hmade. rewrite Hmade in Hbatch, Hlen |- *.
    destruct Hbatch as (Hi & Hn & Hp & Hl & Hs & _ & Hd).
    assert (length made = 4%nat) as Hfour by (by destruct name).
    destruct made as [|p0 [|p1 [|p2 [|p3 [|p4 made]]]]]; try discriminate Hfour.
    exists p0, p1, p2, p3. cbn zeta.
    cbn [setPoints emit points nonce landmarks detector imageFit stageSize].
    rewrite Hp, Hn, Hl, Hs, Hd. split_and!; try done.
    intros Hnil. rewrite Hnil in Hlms. discriminate Hlms.
Qed.

Lemma filter_absent_id (i : string) (ps : list AnnotationPoint) :
  i ∉ ids ps -> filter (fun p => pt_id p ≠ i) ps = ps.
Proof.
  induction ps as [|q qs IH]; intros Hout; [done|].
  cbn [ids fmap list_fmap] in Hout. apply not_elem_of_cons in Hout as [Hq Hqs].
  rewrite filter_cons_True by congruence. f_equal. by apply IH.
Qed.

Lemma filter_twice_id (i : string) (ps : list AnnotationPoint) :
  filter (fun p => pt_id p ≠ i) (filter (fun p => pt_id p ≠ i) ps)
  = filter (fun p => pt_id p ≠ i) ps.
Proof.
  induction ps as [|q qs IH]; [done|].
  destruct (decide (pt_id q = i)) as [Hq | Hq].
  - by rewrite filter_cons_False by (intros H; by apply H).
  - rewrite !filter_cons_True by done. f_equal. exact IH.
Qed.

(** X17.  [removePoint] keeps exactly the markers whose identifier is not
    the given one, in their order.  When no marker has the identifier the
    list is left as it is, and removing a second time changes nothing.
    Nothing but the marker list is changed. *)
Theorem removePoint_keeps_the_others (i : string) (st : state) :
  let st' := removePoint i st in
  (∀ p, p ∈ points st' <-> p ∈ points st ∧ pt_id p ≠ i)
  ∧ points st' `sublist_of` points st
  ∧ (i ∉ ids (points st) -> points st' = points st)
  ∧ points (removePoint i st') = points st'
  ∧ landmarks st' = landmarks st
  ∧ detector st' = detector st
  ∧ imageFit st' = imageFit st
  ∧ stageSize st' = stageSize st
  ∧ nonce st' = nonce st.
Proof.
  cbn zeta. unfold removePoint.
  cbn [setPoints emit points landmarks detector imageFit stageSize nonce].
  split_and!; try done.
  - intros p. rewrite list_elem_of_filter. split; intros [? ?]; by split.
  - apply sublist_filter.
  - apply filter_absent_id.
  - apply filter_twice_id.
Qed.

Lemma filter_unique_id (ps : list AnnotationPoint) (k : nat)
    (p : AnnotationPoint) :
  NoDup (ids ps) -> ps !! k = Some p ->
  filter (fun q => pt_id q ≠ pt_id p) ps = delete k ps.
Proof.
  revert k. induction ps as [|q qs IH]; intros k Hnd Hk; [done|].
  cbn [ids fmap list_fmap] in Hnd. apply NoDup_cons in Hnd as [Hq Hnd].
  destruct k as [|k]; cbn in Hk.
  - injection Hk as ->.
    rewrite filter_cons_False by (intros H; by apply H).
    by rewrite filter_absent_id.
  - rewrite filter_cons_True.
    + change (delete (S k) (q :: qs)) with (q :: delete k qs).
      f_equal. by apply IH.
    + intros Heq. apply Hq. rewrite Heq.
      apply list_elem_of_fmap. exists p. split; [done|].
      by eapply list_elem_of_lookup_2.
Qed.

Lemma update_unique_id (f : AnnotationPoint -> AnnotationPoint)
    (ps : list AnnotationPoint) (k : nat) (p : AnnotationPoint) :
  NoDup (ids ps) -> ps !! k = Some p ->
  map (fun pt => if has_id (pt_id p) pt then f pt else pt) ps
  = <[k := f p]> ps.
Proof.
  revert k. induction ps as [|q qs IH]; intros k Hnd Hk; [done|].
  cbn [ids fmap list_fmap] in Hnd. apply NoDup_cons in Hnd as [Hq Hnd].
  destruct k as [|k]; cbn in Hk |- *.
  - injection Hk as ->. rewrite (proj2 (has_id_true _ _)) by done. f_equal.
    clear IH. induction qs as [|r rs IH]; [done|].
    cbn [fmap list_fmap] in Hq, Hnd.
    apply not_elem_of_cons in Hq as [Hr Hq].
    apply NoDup_cons in Hnd as [_ Hnd].
    cbn [map]. rewrite (proj2 (has_id_false _ _)) by congruence.
    f_equal. by apply IH.
  - rewrite (proj2 (has_id_false _ _)).
    + f_equal. by apply IH.
    + intros Heq. apply Hq. rewrite Heq.
      apply list_elem_of_fmap. exists p. split; [done|].
      by eapply list_elem_of_lookup_2.
Qed.

(** X18.  With pairwise different identifiers, the "remove" button of a
    marker removes that marker and no other: the list is the old one
    without the position of the marker. *)
Theorem removePoint_removes_one (st : state) (k : nat) (p : AnnotationPoint) :
  NoDup (ids (points st)) ->
  points st !! k = Some p ->
  points (removePoint (pt_id p) st) = delete k (points st)
  ∧ length (points (removePoint (pt_id p) st)) = (length (points st) - 1)%nat.
Proof.
  intros Hnd Hk. unfold removePoint. cbn [setPoints emit points].
  rewrite (filter_unique_id _ _ _ Hnd Hk). split; [done|].
  rewrite length_delete by (by eexists). done.
Qed.

Lemma Math_round_idem (x : Q) : Math_round (Math_round x) = Math_round x.
Proof. unfold Math_round at 2. apply Math_round_int. Qed.

(** X19.  With pairwise different identifiers, the "refresh" button of a
    marker rounds the coordinates of that marker to integers and leaves
    every other marker as it is; pressing it again changes nothing. *)
Theorem onRefresh_rounds_one (st : state) (k : nat) (p : AnnotationPoint) :
  NoDup (ids (points st)) ->
  points st !! k = Some p ->
  points (onRefresh p st) = <[k := rounded p]> (points st)
  ∧ (∃ a b : Z, pt_x (rounded p) = inject_Z a ∧ pt_y (rounded p) = inject_Z b)
  ∧ points (onRefresh (rounded p) (onRefresh p st)) = points (onRefresh p st).
Proof.
  intros Hnd Hk.
  assert (∀ st0 q j, NoDup (ids (points st0)) -> points st0 !! j = Some q ->
            points (onRefresh q st0) = <[j := rounded q]> (points st0)) as Hone.
  { intros st0 q j Hnd0 Hj. unfold onRefresh.
    rewrite points_updatePointMeta.
    by rewrite (update_unique_id
                  (fun pt => spread pt
                     {| u_x := Some (Math_round (pt_x q));
                        u_y := Some (Math_round (pt_y q));
                        u_product := None; u_dose := None |}) _ _ _ Hnd0 Hj). }
  split_and!.
  - by apply Hone.
  - by eexists _, _.
  - rewrite (Hone (onRefresh p st) (rounded p) k).
    + rewrite (Hone st p k Hnd Hk). rewrite list_insert_insert_eq.
      f_equal. unfold rounded. cbn [pt_id pt_x pt_y pt_product pt_dose].
      by rewrite !Math_round_idem.
    + unfold onRefresh. rewrite points_updatePointMeta. by rewrite ids_update.
    + rewrite (Hone st p k Hnd Hk). apply list_lookup_insert_eq.
      by eapply lookup_lt_Some.
Qed.

Lemma or_else_pos (a d : Q) : 0 <= a -> 0 < d -> 0 < or_else a d.
Proof.
  intros Ha Hd. unfold or_else. destruct (Qeq_bool a 0) eqn:E; [done|].
  assert (¬ a == 0) by (intros H; apply Qeq_bool_iff in H; congruence).
  lra.
Qed.

(** X20.  [image.onload], run while the component is mounted: for an image
    whose natural width and height are not negative, the stage becomes the fit of the image: it is within 800
    by 800 and has a side of 800.  An image without natural size (width or
    height 0) is taken as 800 wide or high; with neither, the stage is 800
    by 800.  Markers and mesh are left as they were. *)
Theorem onImageLoad_stage (naturalWidth naturalHeight : Q) (st : state) :
  0 <= naturalWidth -> 0 <= naturalHeight ->
  let st' := onImageLoad naturalWidth naturalHeight st in
  ∃ fit, imageFit st' = Some fit
    ∧ width (stageSize st') = width fit
    ∧ height (stageSize st') = height fit
    ∧ width fit <= 800 ∧ height fit <= 800
    ∧ (width fit = 800 ∨ height fit = 800)
    ∧ (naturalWidth == 0 -> naturalHeight == 0 ->
         width fit = 800 ∧ height fit = 800)
    ∧ points st' = points st
    ∧ landmarks st' = landmarks st.
Proof.
  intros Hw Hh. cbn zeta. unfold onImageLoad.
  cbn [setStageSize setImageFit imageFit stageSize points landmarks
       width height].
  eexists. split; [reflexivity|].
  assert (0 < or_else naturalWidth DEFAULT_STAGE_WIDTH) as Hiw
    by (by apply or_else_pos).
  assert (0 < or_else naturalHeight DEFAULT_STAGE_HEIGHT) as Hih
    by (by apply or_else_pos).
  destruct (fitImage_fits_round_stable _ _ DEFAULT_STAGE_WIDTH
              DEFAULT_STAGE_HEIGHT Hiw Hih)
    as (Hfw & Hfh & Hside & _); [done..|].
  split_and!; try done.
  intros Hw0 Hh0. unfold or_else.
  rewrite (proj2 (Qeq_bool_iff naturalWidth 0) Hw0).
  rewrite (proj2 (Qeq_bool_iff naturalHeight 0) Hh0).
  by vm_compute.
Qed.

Section Issued.

Hypothesis gen_fresh : ∀ j k, gen j = gen k -> j = k.

(** X21.  Adding a marker and removing it again.  [onAddPoint] puts one
    marker with a new identifier, empty product and dose at the end of the
    list, at the centre of the fitted image (of the stage when there is no
    fit).  When the identifiers in the list are those of earlier [nanoid]
    calls, removing the new marker gives the old list back. *)
Theorem onAddPoint_then_removePoint (st : state) :
  markers_ok st ->
  ∃ p, points (onAddPoint st) = points st ++ [p]
    ∧ pt_id p = gen (nonce st)
    ∧ blank p
    ∧ pt_x p = match imageFit st with
               | Some f => width f / 2
               | None => width (stageSize st) / 2
               end
    ∧ pt_y p = match imageFit st with
               | Some f => height f / 2
               | None => height (stageSize st) / 2
               end
    ∧ points (removePoint (pt_id p) (onAddPoint st)) = points st.
Proof using gen_fresh.
  intros [Hnd Hissued]. unfold onAddPoint, removePoint.
  cbn [freshPoint nanoid fst snd setPoints emit points bump].
  eexists. split; [reflexivity|]. cbn [pt_id pt_x pt_y].
  split_and!; try done; try (by destruct (imageFit st)).
  rewrite filter_app, filter_cons_False, filter_nil, app_nil_r
    by (intros H; by apply H).
  apply filter_absent_id. intros Hin.
  rewrite Forall_forall in Hissued.
  destruct (Hissued _ Hin) as (k & Hk & Heq).
  apply gen_fresh in Heq. lia.
Qed.

End Issued.

(* ----------------------------------------------------------------- *)
(** *** Detection *)

(** X22.  The mesh that [detectOnce] reads from a prediction.  The first
    of [scaledMesh], [mesh], [keypoints], [keypoints3D] that is there is
    taken, in this order.  Keypoints are turned into landmarks one by one,
    with [z] set to 0 when it is missing; reading them throws exactly when
    one of the keypoints is [null].  A prediction with none of the four
    gives the empty mesh, with a warning, and it is the only one that
    warns. *)
Theorem extractMesh_shapes (f : face) :
  (∀ m, scaledMesh f = Some m -> extractMesh f = Returns (m, false))
  ∧ (∀ m, scaledMesh f = None -> faceMesh f = Some m ->
       extractMesh f = Returns (m, false))
  ∧ (∀ kps, scaledMesh f = None -> faceMesh f = None ->
       keypoints f = Some kps ->
       (extractMesh f = Throws <-> None ∈ kps)
       ∧ ∀ m w, extractMesh f = Returns (m, w) ->
           w = false ∧ length m = length kps
           ∧ ∀ k kp, kps !! k = Some (Some kp) ->
               m !! k = Some (Some {| lm0 := kp_x kp; lm1 := kp_y kp;
                                      lm2 := Some (default 0 (kp_z kp)) |}))
  ∧ (∀ m, scaledMesh f = None -> faceMesh f = None -> keypoints f = None ->
       keypoints3D f = Some m -> extractMesh f = Returns (m, false))
  ∧ (∀ m, extractMesh f = Returns (m, true) <->
       m = [] ∧ scaledMesh f = None ∧ faceMesh f = None
       ∧ keypoints f = None ∧ keypoints3D f = None).
Proof.
  unfold extractMesh. split_and!.
  - by intros m ->.
  - by intros m -> ->.
  - intros kps -> -> ->.
    destruct (mapM landmarkOfKeypoint kps) as [m|] eqn:HmapM.
    + split.
      * split; [done|]. intros Hin.
        assert (is_Some (mapM landmarkOfKeypoint kps)) as Hs by (by eexists).
        apply mapM_is_Some_1 in Hs. rewrite Forall_forall in Hs.
        by destruct (Hs None Hin).
      * intros m' w [= <- <-]. apply mapM_Some in HmapM.
        split_and!; [done | symmetry; by eapply Forall2_length |].
        intros k kp Hk.
        destruct (Forall2_lookup_l _ _ _ _ _ HmapM Hk) as (lm & Hlm & Heq).
        cbn in Heq. by injection Heq as <-.
    + split.
      * split; [|done]. intros _.
        apply mapM_None, Exists_exists in HmapM as ([kp|] & Hin & Hnone);
          [done | done].
      * intros m w [=].
  - by intros m -> -> -> ->.
  - intros m.
    destruct (scaledMesh f), (faceMesh f), (keypoints f) as [kps|],
      (keypoints3D f); try destruct (mapM landmarkOfKeypoint kps);
      split; try (by intros [=]); try (by intros (_ & ? & ? & ? & ?)).
    by intros (-> & _).
Qed.

(** X23.  The order of the [estimateFaces] attempts.  The call shapes are
    tried in the order plain, input object, with configuration; each one is
    tried only after all the earlier ones have thrown, and a call that
    returns ends the attempts, its value being the predictions, falsy or
    not.  The predictions are [null] after three throws. *)
Theorem estimateCascade_first_return (e : detect_env) :
  ∃ before s,
    before ++ [s] `prefix_of` [Plain; InputObject; WithConfig]
    ∧ snd (estimateCascade e) = before ++ [s]
    ∧ (∀ s', s' ∈ before -> estimateFaces e s' = Throws)
    ∧ match estimateFaces e s with
      | Returns p => fst (fst (estimateCascade e)) = p
      | Throws => fst (fst (estimateCascade e)) = None ∧ s = WithConfig
      end
    ∧ (snd (fst (estimateCascade e)) = true
       <-> ∃ s', s' ∈ before ++ [s] ∧ cancel_during e s' = true).
Proof.
  assert (∀ before s,
            snd (estimateCascade e) = before ++ [s] ->
            (snd (fst (estimateCascade e)) = true
             <-> ∃ s', s' ∈ before ++ [s] ∧ cancel_during e s' = true)) as Hc.
  { intros before s <-. apply estimateCascade_cancelled. }
  revert Hc. unfold estimateCascade.
  destruct (estimateFaces e Plain) as [p1|] eqn:E1.
  { intros Hc. exists [], Plain. rewrite E1.
    refine (conj _ (conj _ (conj _ (conj _ _))));
      [by eexists | done | | done | by apply Hc].
    intros s' Hs'. by apply elem_of_nil in Hs'. }
  destruct (estimateFaces e InputObject) as [p2|] eqn:E2.
  { intros Hc. exists [Plain], InputObject. rewrite E2.
    refine (conj _ (conj _ (conj _ (conj _ _))));
      [by eexists | done | | done | by apply Hc].
    intros s' Hs'. apply elem_of_cons in Hs' as [-> | Hs']; [done|].
    by apply elem_of_nil in Hs'. }
  intros Hc. exists [Plain; InputObject], WithConfig.
  destruct (estimateFaces e WithConfig) as [p3|] eqn:E3;
    (refine (conj _ (conj _ (conj _ (conj _ _))));
       [by eexists | done | | done | by apply Hc]);
    intros s' Hs'; mem_hyps; by subst.
Qed.

Lemma imageFit_emits es st : imageFit (emits es st) = imageFit st.
Proof.
  revert st. induction es as [|e es IH]; intros st; [done|].
  by rewrite emits_cons, (IH (emit e st)).
Qed.

Lemma stageSize_emits es st : stageSize (emits es st) = stageSize st.
Proof.
  revert st. induction es as [|e es IH]; intros st; [done|].
  by rewrite emits_cons, (IH (emit e st)).
Qed.

Lemma defaultPoints_imageFit indices (m : mesh) st :
  imageFit (snd (defaultPoints indices m st)) = imageFit st.
Proof.
  revert st. induction indices as [|i indices IH]; intros st; [done|].
  cbn [defaultPoints]. destruct (entry m i) as [p|]; [|apply IH].
  cbn [fst snd]. by rewrite IH.
Qed.

Lemma detectOnce_stage seen e st :
  imageFit (detectOnce seen e st) = imageFit st
  ∧ stageSize (detectOnce seen e st) = stageSize st.
Proof.
  unfold detectOnce.
  destruct (canvas_ok e); cbn [negb]; [|done].
  destruct (estimateCascade e) as [[predictions cancelled] calls].
  cbn [fst snd].
  destruct predictions as [preds|].
  2:{ cbn. by rewrite imageFit_emits, stageSize_emits. }
  destruct cancelled.
  { cbn. by rewrite imageFit_emits, stageSize_emits. }
  destruct preds as [|f preds].
  { cbn. by rewrite imageFit_emits, stageSize_emits. }
  destruct (extractMesh f) as [[m warned]|].
  2:{ cbn. by rewrite imageFit_emits, stageSize_emits. }
  destruct (bool_decide (length seen = 0%nat) && bool_decide (0 < length m)%nat).
  - match goal with
    | |- context [defaultPoints lipsIndices m ?s] =>
        destruct (defaultPoints_batch lipsIndices m s)
          as (_ & _ & _ & _ & Hs & _);
        pose proof (defaultPoints_imageFit lipsIndices m s) as Hf
    end.
    cbn [setPoints emit imageFit stageSize]. rewrite Hf, Hs.
    destruct warned; cbn; by rewrite imageFit_emits, stageSize_emits.
  - destruct warned; cbn; by rewrite imageFit_emits, stageSize_emits.
Qed.

(** X24.  What a run of [detectOnce] can change.  The detector, the fit
    and the stage are never changed.  At most four identifiers are drawn.
    When the routine saw markers, the marker list stays as it is.  The
    landmarks stay as they are, or become empty, or become the mesh read
    from the first prediction.  When the detector finds no face (an empty
    array of predictions, and no cancellation), the landmarks are emptied
    and the markers stay where they are. *)
Theorem detectOnce_frame (seen : list AnnotationPoint) (e : detect_env)
    (st : state) :
  let st' := detectOnce seen e st in
  detector st' = detector st
  ∧ imageFit st' = imageFit st
  ∧ stageSize st' = stageSize st
  ∧ (nonce st ≤ nonce st' ≤ nonce st + 4)%nat
  ∧ (seen ≠ [] -> points st' = points st ∧ nonce st' = nonce st)
  ∧ (landmarks st' = landmarks st
     ∨ landmarks st' = []
     ∨ ∃ f preds m warned,
         fst (fst (estimateCascade e)) = Some (f :: preds)
         ∧ extractMesh f = Returns (m, warned)
         ∧ landmarks st' = m)
  ∧ (canvas_ok e = true ->
     fst (fst (estimateCascade e)) = Some [] ->
     snd (fst (estimateCascade e)) = false ->
     landmarks st' = [] ∧ points st' = points st).
Proof.
  cbn zeta.
  destruct (detectOnce_trace seen e st) as (evs & _ & Hdet & Hcase).
  destruct (detectOnce_stage seen e st) as [Hfit Hstage].
  pose proof (detectOnce_markers seen e st) as Hmarkers.
  do 3 (split; [done|]). split; [|split; [|split]].
  - destruct Hmarkers as [[_ ->] | (m & st1 & _ & Hn & _ & _ & _ & ->)]; [lia|].
    destruct (defaultPoints_batch lipsIndices m st1) as (_ & Hn' & _).
    cbn [setPoints emit nonce]. rewrite Hn', Hn.
    rewrite defaultPoints_markersAt. unfold markersAt. rewrite length_imap.
    pose proof (length_presentAt lipsIndices m) as Hle.
    cbn [lipsIndices length] in Hle. lia.
  - intros Hseen.
    destruct Hmarkers as [[-> ->] | (m & st1 & _ & _ & _ & -> & _)]; done.
  - destruct (canvas_ok e); cbn [negb] in Hcase;
      [|left; by destruct Hcase as (_ & ? & _)].
    cbn zeta in Hcase.
    destruct (fst (fst (estimateCascade e))) as [[|f preds]|] eqn:Hpreds.
    + destruct (snd (fst (estimateCascade e)));
        [left | right; left]; by destruct Hcase as (_ & ? & _).
    + destruct (snd (fst (estimateCascade e)));
        [left; by destruct Hcase as (_ & ? & _)|].
      destruct (extractMesh f) as [[m warned]|] eqn:Hmesh;
        [|left; by destruct Hcase as (_ & ? & _)].
      right; right. exists f, preds, m, warned. by destruct Hcase as [? _].
    + left. by destruct Hcase as (_ & ? & _).
  - intros Hcanvas Hpreds Hgo. rewrite Hcanvas in Hcase. cbn [negb] in Hcase.
    cbn zeta in Hcase. rewrite Hpreds, Hgo in Hcase.
    by destruct Hcase as (_ & ? & ?).
Qed.

End Component.



(* ================================================================= *)
(** ** Instances and examples *)

Lemma hypot_floor_nonneg (x y : Q) : 0 <= hypot_floor x y.
Proof.
  unfold hypot_floor, Qle. cbn [Qnum Qden].
  pose proof (Z.sqrt_nonneg
                (Qnum (x * x + y * y) * Z.pos (Qden (x * x + y * y)))).
  lia.
Qed.

Example fitImage_landscape :
  fitImage 1920 1080 800 800 = {| width := 800; height := 450 |}.
Proof. reflexivity. Qed.

Example fitImage_portrait :
  fitImage 1080 1920 800 800 = {| width := 450; height := 800 |}.
Proof. reflexivity. Qed.

Example hypot_floor_3_4 : hypot_floor 3 4 = 5.
Proof. reflexivity. Qed.

(** The first of four samples on the polyline (0,0), (3,4), (3,10), of
    length 11: at arc length 11/8, on the first segment. *)
Example samplesAlong_first_sample :
  hd_error <$> samplesAlong hypot_floor
                 [ {| px := 0; py := 0 |}; {| px := 3; py := 4 |};
                   {| px := 3; py := 10 |} ] 4
  = Some (Some {| s_x := 33 # 40; s_y := 44 # 40;
                  s_nx := -4 # 5; s_ny := 3 # 5 |}).
Proof. reflexivity. Qed.

(** Snap moves the marker onto landmark [13], the nearest one, and keeps
    its identifier, product and dose. *)
Example snap_to_landmark_13 :
  points <$> snapPointToNearestLandmark hypot_floor (nanoid_decimal 0)
               default_radius near_landmark_state
  = Some [ {| pt_id := nanoid_decimal 0; pt_x := 13; pt_y := 13;
              pt_product := Some "Filler"; pt_dose := None |} ].
Proof. reflexivity. Qed.

(** C10 on the polyline (0,0), (3,4), (3,10) with twelve samples. *)
Lemma samplesAlong_total_in_bounds_witness :
  (∀ x y, 0 <= hypot_floor x y)
  ∧ ∃ samples,
      samplesAlong hypot_floor
        [ {| px := 0; py := 0 |}; {| px := 3; py := 4 |};
          {| px := 3; py := 10 |} ] 12 = Some samples
      ∧ length samples = 12%nat.
Proof.
  split; [exact hypot_floor_nonneg|].
  destruct (samplesAlong_total_in_bounds hypot_floor hypot_floor_nonneg
              [ {| px := 0; py := 0 |}; {| px := 3; py := 4 |};
                {| px := 3; py := 10 |} ] 12)
    as (samples & Hsome & _ & Hfull).
  exists samples. split; [exact Hsome|].
  apply Hfull. intros [Hshort | Hzero].
  - cbn in Hshort. lia.
  - vm_compute in Hzero. discriminate.
Defined.

Lemma nanoid_decimal_fresh (j k : nat) :
  nanoid_decimal j = nanoid_decimal k -> j = k.
Proof. unfold nanoid_decimal. apply (inj pretty). Qed.

(** C2 after a run of five operations. *)
Lemma marker_ids_unique_witness :
  (∀ j k, nanoid_decimal j = nanoid_decimal k -> j = k)
  ∧ NoDup (ids (points (run hypot_floor nanoid_decimal
                          [ OpAddPoint; OpAddPreset lips; OpRemove "1";
                            OpUpdate "2" {| u_x := Some 1; u_y := None;
                                            u_product := Some "x";
                                            u_dose := None |};
                            OpAddPoint ]
                          initial))).
Proof.
  split; [exact nanoid_decimal_fresh|].
  apply marker_ids_unique. exact nanoid_decimal_fresh.
Defined.

(** C3, counterexample.  With two landmarks, neither [10] nor [152] is
    there, and the midline is drawn: through the centre of their bounding
    box. *)
Lemma midline_drawn_without_its_landmarks :
  entry two_landmarks 10 = None
  ∧ entry two_landmarks 152 = None
  ∧ drawMidline true two_landmarks
    = [ Line [Num (10 # 2); Num 0; Num (10 # 2); Num 20];
        Text "Midline" (Num (88 # 8)) (Num (32 # 2)) ]
  ∧ ¬ midline_skipped_when_missing two_landmarks.
Proof.
  split_and!; try reflexivity.
  intros H. specialize (H (or_introl eq_refl)). discriminate H.
Qed.



(** C5, counterexample.  The first call shape throws: the routine awaits
    the second one at once, without a read of [cancelled] in between. *)
Lemma detectOnce_retries_without_reading_the_flag :
  events_since initial (detectOnce nanoid_decimal [] env_retry_cancelled initial)
  = [ EAwait (EstimateFaces Plain); EAwait (EstimateFaces InputObject);
      EReadCancelled true ]
  ∧ ¬ read_after_every_await
        (events_since initial
           (detectOnce nanoid_decimal [] env_retry_cancelled initial)).
Proof.
  split; [reflexivity|].
  intros H. destruct (H 0%nat (EstimateFaces Plain) eq_refl) as [v Hv].
  discriminate Hv.
Qed.

(** C5 when the cleanup runs during the first awaited call. *)
Lemma cancellation_read_once_witness :
  cancel_during env_retry_cancelled Plain = true
  ∧ landmarks (detectOnce nanoid_decimal [] env_retry_cancelled initial)
    = landmarks initial
  ∧ points (detectOnce nanoid_decimal [] env_retry_cancelled initial)
    = points initial
  ∧ Forall silent
      (events_since initial
         (detectOnce nanoid_decimal [] env_retry_cancelled initial)).
Proof.
  split; [reflexivity|].
  apply (cancellation_read_once nanoid_decimal [] env_retry_cancelled initial).
  exists Plain. split; [|reflexivity].
  vm_compute. by repeat constructor.
Defined.

(** C1 when every call shape of [estimateFaces] throws. *)
Lemma failure_only_logged_witness :
  fails (Detect [] env_all_throw)
  ∧ only_logged initial (detectOnce nanoid_decimal [] env_all_throw initial).
Proof.
  assert (fails (Detect [] env_all_throw)) as Hfails.
  { right; left. intros s. reflexivity. }
  split; [exact Hfails|].
  exact (failure_only_logged nanoid_decimal (Detect [] env_all_throw)
           initial Hfails).
Defined.

(** C7 at the failing input.  The effect was created when the marker
    list was empty; while [estimateFaces] is pending the user adds a marker;
    the call then returns a face.  The marker list of the moment is not
    empty, and yet the default markers are made, and they replace the
    user's marker. *)
Lemma detectOnce_discards_marker_added_meanwhile :
  points (onAddPoint nanoid_decimal initial) = [first_marker]
  ∧ points one_marker_state = [first_marker]
  ∧ points (detectOnce nanoid_decimal [] env_one_face one_marker_state)
    = [ {| pt_id := "1"; pt_x := 13; pt_y := 13;
           pt_product := Some EmptyString; pt_dose := Some EmptyString |};
        {| pt_id := "2"; pt_x := 14; pt_y := 14;
           pt_product := Some EmptyString; pt_dose := Some EmptyString |} ].
Proof. split_and!; reflexivity. Qed.

(* ================================================================= *)
(** ** More instances and examples *)

(** X5 on the marker of [near_landmark_state]: the mesh has no landmark
    [152], its bounding box is 14 by 14, and the marker, at [x = 13.5], is
    right of the centre line [x = 7]. *)
Lemma pointOffsets_bbox_midline_witness :
  boundingBox (landmarks near_landmark_state)
  = {| minX := Num 0; maxX := Num 14; minY := Num 0; maxY := Num 14 |}
  ∧ entry (landmarks near_landmark_state) 152 = None
  ∧ ∃ o, pointOffsets hypot_floor near_landmark_state !! 0%nat = Some o
      ∧ sideLabel (po_side o) = "R".
Proof.
  split; [reflexivity|]. split; [reflexivity|].
  destruct (pointOffsets_bbox_midline hypot_floor near_landmark_state
              0 14 0 14 0
              {| pt_id := nanoid_decimal 0; pt_x := 27 # 2; pt_y := 13;
                 pt_product := Some "Filler"; pt_dose := None |})
    as (o & Ho & _ & Hlabel & _).
  - reflexivity.
  - right. reflexivity.
  - reflexivity.
  - exists o. split; [exact Ho|].
    destruct Hlabel as (_ & HR & _); [lra|].
    apply HR. reflexivity.
Defined.

(** X6 on [one_marker_state]: no mesh yet, so the marker is labelled "C"
    at offset 0. *)
Lemma pointOffsets_without_landmarks_witness :
  (∀ i, entry (landmarks one_marker_state) i = None)
  ∧ ∃ o, pointOffsets hypot_floor one_marker_state !! 0%nat = Some o
      ∧ po_dist o = Num 0 ∧ sideLabel (po_side o) = "C".
Proof.
  assert (∀ i, entry (landmarks one_marker_state) i = None) as Hnone.
  { intros i. unfold entry. cbn [landmarks one_marker_state].
    by rewrite lookup_nil. }
  split; [exact Hnone|].
  destruct (pointOffsets_without_landmarks hypot_floor one_marker_state
              0 first_marker Hnone)
    as (o & Ho & Hempty & _); [reflexivity|].
  exists o. split; [exact Ho|].
  destruct Hempty as [-> Hlabel]; [reflexivity|]. by split.
Defined.

(** X7 on the marker of [near_landmark_state]. *)
Lemma offsetFor_own_offset_witness :
  NoDup (ids (points near_landmark_state))
  ∧ is_Some (offsetFor hypot_floor near_landmark_state
               {| pt_id := nanoid_decimal 0; pt_x := 27 # 2; pt_y := 13;
                  pt_product := Some "Filler"; pt_dose := None |}).
Proof.
  assert (NoDup (ids (points near_landmark_state))) as Hnd
    by apply NoDup_singleton.
  split; [exact Hnd|].
  rewrite (offsetFor_own_offset hypot_floor near_landmark_state 0 _ Hnd);
    [by eexists | reflexivity].
Defined.

(** X8 on the channel value 180, written [b4]. *)
Lemma toHex_parseInt16_round_trip_witness :
  (0 <= 180 <= 255)%Z
  ∧ String.length (toHex (Some 180%Z)) = 2%nat
  ∧ parseInt16 (toHex (Some 180%Z)) = Some 180%Z.
Proof.
  split; [lia|].
  destruct (toHex_parseInt16_round_trip 180) as (Hlen & Hback & _); [lia|].
  by split.
Defined.


Example colourOf_orbicularis : colourOf 180 0 106 = "#b4006a".
Proof. reflexivity. Qed.

Example darkenHex_orbicularis : darkenHex "#b4006a" (8 # 100) = "#a50061".
Proof. reflexivity. Qed.

Example darkenHex_malformed : darkenHex "zz" (1 # 10) = "#NaNNaNNaN".
Proof. reflexivity. Qed.

Example parseInt16_signed_prefixed : parseInt16 " -0x1F" = Some (-31)%Z.
Proof. reflexivity. Qed.

(** X15 on a mesh with every landmark. *)
Lemma drawMuscles_total_witness :
  (∀ x y, 0 <= hypot_floor x y)
  ∧ ∃ prims, drawMuscles hypot_floor true dense_mesh = Some prims.
Proof.
  split; [exact hypot_floor_nonneg|].
  destruct (drawMuscles_total hypot_floor hypot_floor_nonneg true dense_mesh)
    as (prims & Hprims & _).
  by exists prims.
Defined.

Example dense_mesh_draws_every_muscle :
  ms_def <$> musclesToRender dense_mesh = muscleDefs
  ∧ vs_def <$> vesselShapes dense_mesh = vesselDefs.
Proof. split; reflexivity. Qed.

(** X18 on the marker of [one_marker_state]. *)
Lemma removePoint_removes_one_witness :
  NoDup (ids (points one_marker_state))
  ∧ points (removePoint (pt_id first_marker) one_marker_state) = [].
Proof.
  assert (NoDup (ids (points one_marker_state))) as Hnd
    by apply NoDup_singleton.
  split; [exact Hnd|].
  destruct (removePoint_removes_one one_marker_state 0 first_marker Hnd)
    as [Hpts _]; [reflexivity|].
  exact Hpts.
Defined.

(** X19 on the marker of [near_landmark_state], at [x = 13.5]: it is moved
    to [x = 14]. *)
Lemma onRefresh_rounds_one_witness :
  NoDup (ids (points near_landmark_state))
  ∧ pt_x <$> points
      (onRefresh {| pt_id := nanoid_decimal 0; pt_x := 27 # 2; pt_y := 13;
                    pt_product := Some "Filler"; pt_dose := None |}
         near_landmark_state)
    = [14].
Proof.
  assert (NoDup (ids (points near_landmark_state))) as Hnd
    by apply NoDup_singleton.
  split; [exact Hnd|].
  destruct (onRefresh_rounds_one near_landmark_state 0
              {| pt_id := nanoid_decimal 0; pt_x := 27 # 2; pt_y := 13;
                 pt_product := Some "Filler"; pt_dose := None |} Hnd)
    as (-> & _); reflexivity.
Defined.

(** X20 on an image of 1920 by 1080: the stage is 800 by 450. *)
Lemma onImageLoad_stage_witness :
  0 <= 1920 ∧ 0 <= 1080
  ∧ width (stageSize (onImageLoad 1920 1080 initial)) <= 800
  ∧ height (stageSize (onImageLoad 1920 1080 initial)) <= 800.
Proof.
  split; [lra|]. split; [lra|].
  destruct (onImageLoad_stage 1920 1080 initial)
    as (fit & _ & -> & -> & Hw & Hh & _); [lra | lra |].
  by split.
Defined.

Example onImageLoad_landscape :
  stageSize (onImageLoad 1920 1080 initial) = {| width := 800; height := 450 |}.
Proof. reflexivity. Qed.

(** X21 on [one_marker_state], with decimal identifiers. *)
Lemma onAddPoint_then_removePoint_witness :
  (∀ j k, nanoid_decimal j = nanoid_decimal k -> j = k)
  ∧ markers_ok nanoid_decimal one_marker_state
  ∧ ∃ p, points (onAddPoint nanoid_decimal one_marker_state)
         = points one_marker_state ++ [p]
      ∧ points (removePoint (pt_id p)
                  (onAddPoint nanoid_decimal one_marker_state))
        = points one_marker_state.
Proof.
  assert (markers_ok nanoid_decimal one_marker_state) as Hok.
  { split; [apply NoDup_singleton|].
    apply Forall_singleton. exists 0%nat. split; [cbn; lia | reflexivity]. }
  split; [exact nanoid_decimal_fresh|]. split; [exact Hok|].
  destruct (onAddPoint_then_removePoint nanoid_decimal nanoid_decimal_fresh
              one_marker_state Hok)
    as (p & Hadd & _ & _ & _ & _ & Hrm).
  by exists p.
Defined.
